(** * ESP32 SMB scanner controller: a shallow embedding of [python_server.py]

    The host-side controller reads a serial byte stream that interleaves
    fixed-size binary status reports with newline-terminated debug text,
    keeps a registry of one-shot status waiters, and drives a console whose
    prompt is gated on device activity.  This development embeds the frame
    decoder, the status dispatcher, the waiter registry, the prompt gate and
    the command dispatcher as executable definitions and proves properties
    of them. *)

From Stdlib Require Import ZArith Ascii Bool Lia QArith DecimalString.
From Stdlib Require String.
From stdpp Require Import gmap strings list fin_maps.

Local Open Scope Z_scope.

(** ** Python values used by the controller *)

(** A Python [str] that can carry arbitrary device text is a sequence of
    Unicode code points.  Status names, addresses, console lines and their
    tokens are kept as [string], one character per code point: a [string]
    is a [str] all of whose code points are below 256, and [str] injects
    it.  The library functions below ([lower], [int], [isspace],
    [ipaddress]) are modelled on that whole range; a console line with a
    code point above 255 is outside this development. *)
Definition pystr := list Z.

Definition str (s : string) : pystr :=
  map (fun c => Z.of_N (N_of_ascii c)) (String.list_ascii_of_string s).

(** [str(n)] for an [int]. *)
Definition int_to_str (n : Z) : string := NilEmpty.string_of_int (Z.to_int n).

(** ['sep'.join(parts)] *)
Fixpoint str_join (sep : string) (parts : list string) : string :=
  match parts with
  | [] => ""
  | [p] => p
  | p :: rest => p +:+ sep +:+ str_join sep rest
  end.

(** ** Integers and byte order *)

(** [sys.byteorder] of the machine that runs the controller. *)
Inductive byteorder := little | big.

(** The values a byte of the stream can take. *)
Definition is_byte (b : Z) : Prop := 0 ≤ b < 256.

(** [int.from_bytes(bs, 'little')] *)
Fixpoint from_bytes_little (bs : list Z) : Z :=
  match bs with
  | [] => 0
  | b :: rest => b + 256 * from_bytes_little rest
  end.

Definition int_from_bytes (order : byteorder) (bs : list Z) : Z :=
  match order with
  | little => from_bytes_little bs
  | big => from_bytes_little (rev bs)
  end.

(** [n.to_bytes(len, 'little')] *)
Fixpoint to_bytes_little (len : nat) (n : Z) : list Z :=
  match len with
  | O => []
  | S len' => n mod 256 :: to_bytes_little len' (n / 256)
  end.

Definition int_to_bytes (order : byteorder) (len : nat) (n : Z) : list Z :=
  match order with
  | little => to_bytes_little len n
  | big => rev (to_bytes_little len n)
  end.

(** [socket.htonl(x)]: the host integer whose in-memory representation is
    the network-order (big-endian) representation of [x].  On a
    little-endian host this swaps the four bytes, on a big-endian host it is
    the identity. *)
Definition socket_htonl (host : byteorder) (x : Z) : Z :=
  int_from_bytes host (int_to_bytes big 4 x).

(** [str(ipaddress.IPv4Address(n))]: the four octets of [n], most
    significant first, in decimal and joined by dots. *)
Definition IPv4Address_str (n : Z) : string :=
  str_join "." (map int_to_str (int_to_bytes big 4 n)).

(** [struct.calcsize('<IB')] *)
Definition report_size : nat := 5.

(** [struct.unpack('<IB', packet)]: a little-endian unsigned 32-bit integer
    followed by one unsigned byte. *)
Definition struct_unpack_IB (packet : list Z) : Z * Z :=
  (int_from_bytes little (take 4 packet), nth 4 packet 0).

(** ** Status codes *)

Definition MAGIC_BYTE : Z := 0xAB.

Definition STATUS_MAP : gmap Z string :=
  list_to_map
    [ (10, "WIFI_CONNECT_SUCCESS");
      (11, "WIFI_CONNECT_FAILURE");
      (15, "SCANNING_TARGET");
      (16, "DEVICE_READY");
      (1, "TARGET_UNREACHABLE");
      (2, "PORT_OPEN");
      (3, "SERVICE_NO_RESPONSE");
      (4, "SERVICE_RESPONDED");
      (5, "SCAN_CYCLE_START");
      (6, "SCAN_CYCLE_END") ].

(** [STATUS_MAP.get(status_code, f"UNKNOWN ({status_code})")] *)
Definition status_name (status_code : Z) : string :=
  default ("UNKNOWN (" +:+ int_to_str status_code +:+ ")") (STATUS_MAP !! status_code).


(** ** Text decoding *)

(** What the UTF-8 decoder finds at one position: a well-formed sequence
    giving a code point, or a malformed range that is handed to the error
    handler. *)
Inductive utf8_item := Char (cp : Z) | Malformed.

Definition is_continuation (b : Z) : bool := (0x80 <=? b) && (b <? 0xC0).

(** The scan of [bytes.decode('utf-8', ...)].  A malformed range is the
    longest prefix of a sequence that could still have been completed: one
    byte for a bad start byte or a bad second byte, two or three bytes when a
    later continuation byte is wrong, everything left when the input ends
    inside a sequence. *)
Fixpoint utf8_scan (s : list Z) : list utf8_item :=
  match s with
  | [] => []
  | ch :: r1 =>
    if ch <? 0x80 then Char ch :: utf8_scan r1
    else if ch <? 0xC2 then Malformed :: utf8_scan r1
    else if ch <? 0xE0 then
      match r1 with
      | [] => [Malformed]
      | ch2 :: r2 =>
        if is_continuation ch2
        then Char (ch * 64 + ch2 - (0xC0 * 64 + 0x80)) :: utf8_scan r2
        else Malformed :: utf8_scan r1
      end
    else if ch <? 0xF0 then
      match r1 with
      | [] => [Malformed]
      | ch2 :: r2 =>
        if negb (is_continuation ch2)
           || (if ch2 <? 0xA0 then ch =? 0xE0 else ch =? 0xED)
        then Malformed :: utf8_scan r1
        else
          match r2 with
          | [] => [Malformed]
          | ch3 :: r3 =>
            if is_continuation ch3
            then Char (ch * 4096 + ch2 * 64 + ch3
                       - (0xE0 * 4096 + 0x80 * 64 + 0x80)) :: utf8_scan r3
            else Malformed :: utf8_scan r2
          end
      end
    else if ch <? 0xF5 then
      match r1 with
      | [] => [Malformed]
      | ch2 :: r2 =>
        if negb (is_continuation ch2)
           || (if ch2 <? 0x90 then ch =? 0xF0 else ch =? 0xF4)
        then Malformed :: utf8_scan r1
        else
          match r2 with
          | [] => [Malformed]
          | ch3 :: r3 =>
            if is_continuation ch3 then
              match r3 with
              | [] => [Malformed]
              | ch4 :: r4 =>
                if is_continuation ch4
                then Char (ch * 262144 + ch2 * 4096 + ch3 * 64 + ch4
                           - (0xF0 * 262144 + 0x80 * 4096 + 0x80 * 64 + 0x80))
                       :: utf8_scan r4
                else Malformed :: utf8_scan r3
              end
            else Malformed :: utf8_scan r2
          end
      end
    else Malformed :: utf8_scan r1
  end.

(** The [errors=] argument of [decode]. *)
Inductive error_handler := strict | ignore | replace.

Definition REPLACEMENT_CHARACTER : Z := 0xFFFD.

(** [None] stands for a raised [UnicodeDecodeError]. *)
Fixpoint handle_items (errors : error_handler) (items : list utf8_item)
  : option pystr :=
  match items with
  | [] => Some []
  | Char cp :: rest => cons cp <$> handle_items errors rest
  | Malformed :: rest =>
    match errors with
    | strict => None
    | ignore => handle_items errors rest
    | replace => cons REPLACEMENT_CHARACTER <$> handle_items errors rest
    end
  end.

(** [bs.decode('utf-8', errors=errors)] *)
Definition bytes_decode (errors : error_handler) (bs : list Z) : option pystr :=
  handle_items errors (utf8_scan bs).

(** The code points of the well-formed sequences, in order. *)
Definition well_formed_chars (items : list utf8_item) : pystr :=
  omap (fun item => match item with Char cp => Some cp | Malformed => None end)
       items.

(** [c.isspace()] *)
Definition isspace (c : Z) : bool :=
  ((0x09 <=? c) && (c <=? 0x0D)) || ((0x1C <=? c) && (c <=? 0x20))
  || (c =? 0x85) || (c =? 0xA0) || (c =? 0x1680)
  || ((0x2000 <=? c) && (c <=? 0x200A))
  || (c =? 0x2028) || (c =? 0x2029) || (c =? 0x202F) || (c =? 0x205F)
  || (c =? 0x3000).

Fixpoint lstrip (s : pystr) : pystr :=
  match s with
  | [] => []
  | c :: rest => if isspace c then lstrip rest else s
  end.

Definition rstrip (s : pystr) : pystr := rev (lstrip (rev s)).

(** [s.strip()] *)
Definition strip (s : pystr) : pystr := rstrip (lstrip s).

(** ** Frame decoder (body of [serial_reader_thread]) *)

(** What one pass of the decoder hands on: a decoded status report or a
    non-empty debug line. *)
Inductive decoder_event :=
| StatusEvent (ip_str : string) (status_code : Z) (status_str : string)
| DebugEvent (message : pystr).

(** [buffer.find(b)]; [None] is Python's [-1]. *)
Fixpoint bytes_find (needle : Z) (buffer : list Z) : option nat :=
  match buffer with
  | [] => None
  | b :: rest =>
    if b =? needle then Some O else S <$> bytes_find needle rest
  end.

Definition NEWLINE : Z := 10.

(** One iteration of [while buffer:] on a non-empty buffer. *)
Inductive iteration :=
| Unit (ev : option decoder_event) (n : nat)
    (** a frame or line was taken, [del buffer[:n]], next iteration *)
| Break (kept : list Z) (capped : bool)
    (** [break], leaving [kept]; [capped] when [del buffer[:-256]] ran *)
| Fault (n : nat)
    (** an exception left the loop after [del buffer[:n]] *).

Record drained := Drained {
  events : list decoder_event;
  residue : list Z;
  was_capped : bool;
  faulted : bool
}.

Definition emit (ev : option decoder_event) (d : drained) : drained :=
  Drained (from_option (fun e => [e]) [] ev ++ events d)
          (residue d) (was_capped d) (faulted d).

Definition prepend (evs : list decoder_event) (d : drained) : drained :=
  Drained (evs ++ events d) (residue d) (was_capped d) (faulted d).

Section Decoder.

(** Byte order of the host running the controller. *)
Variable host : byteorder.

(** Lines 217--220: unpack the payload of a report. *)
Definition decode_report (packet : list Z) : decoder_event :=
  let '(target_ip_int, status_code) := struct_unpack_IB packet in
  let target_ip_int_swapped := socket_htonl host target_ip_int in
  let ip_str := IPv4Address_str target_ip_int_swapped in
  let status_str := status_name status_code in
  StatusEvent ip_str status_code status_str.

Definition loop_body (buffer : list Z) : iteration :=
  if nth 0 buffer 0 =? MAGIC_BYTE then
    if (length buffer <? 1 + report_size)%nat then Break buffer false
    else
      let packet := take report_size (drop 1 buffer) in
      Unit (Some (decode_report packet)) (1 + report_size)
  else
    match bytes_find NEWLINE buffer with
    | None =>
      if (2048 <? length buffer)%nat
      then Break (drop (length buffer - 256) buffer) true
      else Break buffer false
    | Some newline_idx =>
      let line := take (newline_idx + 1) buffer in
      match bytes_decode ignore line with
      | None => Fault (newline_idx + 1)
      | Some text =>
        let message := strip text in
        Unit (if message is [] then None else Some (DebugEvent message))
             (newline_idx + 1)
      end
    end.

(** The inner [while buffer:] loop.  Every [Unit] removes at least one
    byte, so [length buffer] iterations always reach the exit. *)
Fixpoint drain (fuel : nat) (buffer : list Z) : drained :=
  match fuel with
  | O => Drained [] buffer false false
  | S fuel' =>
    match buffer with
    | [] => Drained [] [] false false
    | _ :: _ =>
      match loop_body buffer with
      | Unit ev n => emit ev (drain fuel' (drop n buffer))
      | Break kept capped => Drained [] kept capped false
      | Fault n => Drained [] (drop n buffer) false true
      end
    end
  end.

Definition run_loop (buffer : list Z) : drained :=
  drain (length buffer) buffer.

(** One read: [if not chunk: continue], else extend the buffer and run
    the loop. *)
Definition feed (buffer chunk : list Z) : drained :=
  match chunk with
  | [] => Drained [] buffer false false
  | _ :: _ => run_loop (buffer ++ chunk)
  end.

(** The reader over a succession of reads, starting from [buffer]. *)
Fixpoint feed_all (buffer : list Z) (chunks : list (list Z)) : drained :=
  match chunks with
  | [] => Drained [] buffer false false
  | chunk :: later =>
    let d := feed buffer chunk in
    let d' := feed_all (residue d) later in
    Drained (events d ++ events d') (residue d')
            (was_capped d || was_capped d') (faulted d || faulted d')
  end.

End Decoder.

(** ** Waiter registry *)

(** A waiter is the dict [{"statuses": set(...), "event": Event()}].  The
    [threading.Event] is a shared object; it is identified by the order in
    which it was allocated, and two waiters are equal (Python's [==] on the
    dicts) when they have the same status set and the same event. *)
Record waiter := Waiter { statuses : gset string; event : nat }.

Global Instance waiter_eq_dec : EqDecision waiter.
Proof. solve_decision. Defined.

(** [status_waiters] together with the [Event] objects it refers to:
    [next_event] is the allocator of fresh events and [set_calls] records,
    in order, every [Event.set()] made on a waiter's event. *)
Record registry := Registry {
  status_waiters : list waiter;
  next_event : nat;
  set_calls : list nat
}.

Definition empty_registry : registry := Registry [] 0 [].

(** [event.is_set()] *)
Definition is_set (r : registry) (e : nat) : Prop := e ∈ set_calls r.

Definition register_status_waiter (names : list string) (r : registry)
  : nat * registry :=
  let e := next_event r in
  (e, Registry (status_waiters r ++ [Waiter (list_to_set names) e])
               (S e) (set_calls r)).

Definition unregister_status_waiter (e : nat) (r : registry) : registry :=
  Registry (filter (fun w => event w ≠ e) (status_waiters r))
           (next_event r) (set_calls r).

Definition notify_status_waiters (status : string) (r : registry) : registry :=
  let triggered := filter (fun w => status ∈ statuses w) (status_waiters r) in
  Registry (filter (fun w => w ∉ triggered) (status_waiters r))
           (next_event r)
           (set_calls r ++ (event <$> triggered)).

(** ** Prompt gate *)

(** A [wait_and_release] thread started by [hold_prompt_until_status]. *)
Record wait_thread := WaitThread {
  awaited : nat;
  timeout : option Q;
  fallback_delay : Q
}.

(** [prompt_ready_event] with the timers and background waits that will set
    it later. *)
Record gate := Gate {
  prompt_ready : bool;
  timers : list Q;
  wait_threads : list wait_thread
}.

Definition DEFAULT_PROMPT_DELAY : Q := 0.8.

(** ** The controller's shared state and its surroundings *)

Inductive log_level := INFO | WARNING | ERROR.

Record log_record := LogRecord {
  level : log_level;
  message : pystr;
  color : option string
}.

(** The open [serial.Serial] object: [write_error] is the text of the
    exception a write raises when the link is broken; [written] holds the
    lines handed to [write], as text (their [.encode()] leaves an ASCII
    line as it is). *)
Record serial_port := SerialPort {
  port_name : string;
  is_open : bool;
  write_error : option string;
  written : list string
}.

(** The terminal has two streams.  [console] holds the lines written to
    standard output, that is the [print] calls, in order.  [log] holds the
    records handed to the logger, in order: the logger's stream handler
    writes each of them to standard error (one line, time-stamped and
    wrapped in its colour) and its file handler appends it to the log
    file.  How the two streams interleave on the screen is not recorded. *)
Record world := World {
  waiters : registry;
  prompt : gate;
  stop_event : bool;
  log : list log_record;
  console : list string;
  esp32_serial_port : option serial_port;
  wifi_config_file : list (string * string);
  shell_calls : list string;
  os_name : string;
  ipconfig_found : bool
}.

Definition set_waiters (r : registry) (w : world) : world :=
  World r (prompt w) (stop_event w) (log w) (console w) (esp32_serial_port w)
        (wifi_config_file w) (shell_calls w) (os_name w) (ipconfig_found w).

Definition set_prompt (g : gate) (w : world) : world :=
  World (waiters w) g (stop_event w) (log w) (console w) (esp32_serial_port w)
        (wifi_config_file w) (shell_calls w) (os_name w) (ipconfig_found w).

Definition set_stop_event (b : bool) (w : world) : world :=
  World (waiters w) (prompt w) b (log w) (console w) (esp32_serial_port w)
        (wifi_config_file w) (shell_calls w) (os_name w) (ipconfig_found w).

Definition set_log (l : list log_record) (w : world) : world :=
  World (waiters w) (prompt w) (stop_event w) l (console w)
        (esp32_serial_port w) (wifi_config_file w) (shell_calls w) (os_name w)
        (ipconfig_found w).

Definition set_console (c : list string) (w : world) : world :=
  World (waiters w) (prompt w) (stop_event w) (log w) c (esp32_serial_port w)
        (wifi_config_file w) (shell_calls w) (os_name w) (ipconfig_found w).

Definition set_serial_port (p : option serial_port) (w : world) : world :=
  World (waiters w) (prompt w) (stop_event w) (log w) (console w) p
        (wifi_config_file w) (shell_calls w) (os_name w) (ipconfig_found w).

Definition set_wifi_config_file (f : list (string * string)) (w : world)
  : world :=
  World (waiters w) (prompt w) (stop_event w) (log w) (console w)
        (esp32_serial_port w) f (shell_calls w) (os_name w) (ipconfig_found w).

Definition set_shell_calls (c : list string) (w : world) : world :=
  World (waiters w) (prompt w) (stop_event w) (log w) (console w)
        (esp32_serial_port w) (wifi_config_file w) c (os_name w)
        (ipconfig_found w).

(** [hold_prompt(delay)]: clear the event and start a timer that sets it. *)
Definition hold_prompt (delay : Q) (w : world) : world :=
  set_prompt (Gate false (timers (prompt w) ++ [delay])
                   (wait_threads (prompt w))) w.

(** The [_release] callback of the [i]-th pending timer runs when its
    delay has elapsed: the timer is gone and the event is set. *)
Definition timer_fires (i : nat) (w : world) : world :=
  set_prompt (Gate true (delete i (timers (prompt w)))
                   (wait_threads (prompt w))) w.

(** [release_prompt()] *)
Definition release_prompt (w : world) : world :=
  set_prompt (Gate true (timers (prompt w)) (wait_threads (prompt w))) w.

(** [hold_prompt_until_status(statuses, timeout, fallback_delay)] *)
Definition hold_prompt_until_status (names : list string) (tmo : option Q)
    (fallback : Q) (w : world) : world :=
  let '(e, r) := register_status_waiter names (waiters w) in
  let w := set_waiters r w in
  set_prompt (Gate false (timers (prompt w))
                   (wait_threads (prompt w) ++ [WaitThread e tmo fallback])) w.

(** [print(text)]: one more line on standard output. *)
Definition print (text : string) (w : world) : world :=
  set_console (console w ++ [text]) w.

(** [log_message(message, level, color)]: one more record for the logger,
    which shows it on standard error and appends it to the log file. *)
Definition log_message (msg : pystr) (lvl : log_level) (col : option string)
    (w : world) : world :=
  set_log (log w ++ [LogRecord lvl msg col]) w.

(** ** Colours (colorama) *)

Definition ESC : string := String (ascii_of_nat 27) "".
Definition Fore_RED := ESC +:+ "[31m".
Definition Fore_GREEN := ESC +:+ "[32m".
Definition Fore_YELLOW := ESC +:+ "[33m".
Definition Fore_BLUE := ESC +:+ "[34m".
Definition Fore_MAGENTA := ESC +:+ "[35m".
Definition Fore_CYAN := ESC +:+ "[36m".
Definition Fore_LIGHTRED_EX := ESC +:+ "[91m".
Definition Fore_LIGHTYELLOW_EX := ESC +:+ "[93m".
Definition Fore_LIGHTWHITE_EX := ESC +:+ "[97m".
Definition Style_RESET_ALL := ESC +:+ "[0m".

Definition STATUS_COLORS : gmap string string :=
  list_to_map
    [ ("WIFI_CONNECT_SUCCESS", Fore_GREEN);
      ("WIFI_CONNECT_FAILURE", Fore_RED);
      ("SCANNING_TARGET", Fore_BLUE);
      ("DEVICE_READY", Fore_GREEN);
      ("TARGET_UNREACHABLE", Fore_RED);
      ("PORT_OPEN", Fore_YELLOW);
      ("SERVICE_NO_RESPONSE", Fore_LIGHTRED_EX);
      ("SERVICE_RESPONDED", Fore_GREEN);
      ("SCAN_CYCLE_START", Fore_CYAN);
      ("SCAN_CYCLE_END", Fore_CYAN) ].

Definition COMMAND_COLOR := Fore_CYAN.
Definition DESC_COLOR := Fore_LIGHTWHITE_EX.
Definition HIGHLIGHT_COLOR := Fore_LIGHTYELLOW_EX.
Definition WARNING_COLOR := Fore_LIGHTRED_EX.

(** [color or fallback] *)
Definition color_or (col : option string) (fallback : string) : option string :=
  match col with
  | Some c => if bool_decide (c = "") then Some fallback else Some c
  | None => Some fallback
  end.

(** ** Status dispatcher (lines 222--258 of [serial_reader_thread]) *)

Definition handle_status (ip_str : string) (status_code : Z)
    (status_str : string) (w : world) : world :=
  let color := STATUS_COLORS !! status_str in
  let w :=
    if status_code =? 10 then
      log_message (str ("ESP32 connected to Wi-Fi. IP: " +:+ ip_str)) INFO color w
    else if status_code =? 11 then
      log_message (str "ESP32 failed to connect to Wi-Fi.") WARNING
                  (color_or color Fore_RED) w
    else if status_code =? 15 then
      log_message (str ("Scanning target " +:+ ip_str)) INFO
                  (color_or color Fore_BLUE) w
    else if bool_decide (ip_str = "0.0.0.0") then
      if bool_decide (status_str = "SCAN_CYCLE_START") then
        log_message (str "[SCAN] Cycle started") INFO (color_or color Fore_CYAN) w
      else if bool_decide (status_str = "SCAN_CYCLE_END") then
        log_message (str "[SCAN] Cycle completed") INFO
                    (color_or color Fore_CYAN) w
      else if bool_decide (status_str = "DEVICE_READY") then
        let w := log_message (str "ESP32 ready for commands.") INFO
                             (color_or color Fore_GREEN) w in
        let waiting := length (status_waiters (waiters w)) in
        if (waiting =? 0)%nat then release_prompt w else w
      else
        log_message (str ("ESP32 REPORT: " +:+ status_str)) INFO color w
    else
      let default_message :=
        "ESP32 REPORT: TARGET " +:+ ip_str +:+ " -> " +:+ status_str in
      let '(text, lvl) :=
        if bool_decide (status_str = "PORT_OPEN") then
          ("[SCAN] " +:+ ip_str +:+ " | TCP/445 open", INFO)
        else if bool_decide (status_str = "SERVICE_RESPONDED") then
          ("[SCAN] " +:+ ip_str +:+ " | SMB negotiation successful", INFO)
        else if bool_decide (status_str = "SERVICE_NO_RESPONSE") then
          ("[SCAN] " +:+ ip_str +:+ " | No SMB response", WARNING)
        else if bool_decide (status_str = "TARGET_UNREACHABLE") then
          ("[SCAN] " +:+ ip_str +:+ " | Host unreachable", WARNING)
        else (default_message, INFO) in
      log_message (str text) lvl color w
  in
  set_waiters (notify_status_waiters status_str (waiters w)) w.

Definition handle_event (ev : decoder_event) (w : world) : world :=
  match ev with
  | StatusEvent ip_str status_code status_str =>
    handle_status ip_str status_code status_str w
  | DebugEvent msg => log_message (str "ESP32 DEBUG: " ++ msg) INFO None w
  end.

(** One successful read of the reader thread: the buffer is extended and
    drained, every decoded unit is dispatched in order, and an exception
    that left the loop is logged by [except Exception] (the text of the
    exception is not modelled; [drain_never_faults] below shows that this
    branch is never taken). *)
Definition serial_reader_step (host : byteorder) (chunk : list Z)
    (st : list Z * world) : list Z * world :=
  let d := feed host (fst st) chunk in
  let w := foldl (fun w ev => handle_event ev w) (snd st) (events d) in
  (residue d,
   if faulted d then log_message (str "Error in serial reader") ERROR None w
   else w).

(** ** String helpers for the console *)

Definition NL : string := String (ascii_of_nat 10) "".

Definition ascii_code (c : ascii) : Z := Z.of_N (N_of_ascii c).

(** [c.lower()] for a code point below 256: ['A'..'Z'] and the Latin-1
    capitals U+00C0..U+00DE (the multiplication sign U+00D7 excepted) move
    up by 32; every other character is left as it is. *)
Definition char_lower (c : ascii) : ascii :=
  let n := ascii_code c in
  if ((65 <=? n) && (n <=? 90))
     || ((192 <=? n) && (n <=? 222) && negb (n =? 215))
  then ascii_of_N (Z.to_N (n + 32)) else c.

(** [s.lower()] *)
Fixpoint lower (s : string) : string :=
  match s with
  | EmptyString => EmptyString
  | String c rest => String (char_lower c) (lower rest)
  end.

(** [s.endswith(suffix)] *)
Definition endswith (s suffix : string) : bool :=
  let n := String.length s in
  let k := String.length suffix in
  (k <=? n)%nat && bool_decide (String.substring (n - k) k s = suffix).

(** [s.split(sep)] for a one-character separator. *)
Fixpoint split_on (sep : ascii) (s : string) : list string :=
  match s with
  | EmptyString => [EmptyString]
  | String c rest =>
    if bool_decide (c = sep) then EmptyString :: split_on sep rest
    else
      match split_on sep rest with
      | [] => [String c EmptyString]
      | first :: others => String c first :: others
      end
  end.

(** [f"{s:<width}"] *)
Definition ljust (width : nat) (s : string) : string :=
  s +:+ String.string_of_list_ascii
          (replicate (width - String.length s) " "%char).

Definition is_digit (c : ascii) : bool :=
  let n := ascii_code c in (48 <=? n) && (n <=? 57).

(** The digits of [int(s)] after the sign: decimal digits, single
    underscores allowed between digits. *)
Fixpoint parse_digits (cs : list ascii) (acc : Z) (after_digit : bool)
  : option Z :=
  match cs with
  | [] => if after_digit then Some acc else None
  | c :: rest =>
    if is_digit c then parse_digits rest (10 * acc + (ascii_code c - 48)) true
    else if bool_decide (c = "_"%char) && after_digit
         then parse_digits rest acc false
         else None
  end.

(** The blanks [int] skips around a numeral: the ASCII blanks of
    [Py_ISSPACE] and, above 127, the Unicode blanks (U+0085 and U+00A0
    below 256); U+001C..U+001F are not skipped. *)
Definition is_int_blank (c : ascii) : bool :=
  let n := ascii_code c in
  ((9 <=? n) && (n <=? 13)) || (n =? 32) || (n =? 133) || (n =? 160).

(** [sys.get_int_max_str_digits()], the default of CPython 3.11. *)
Definition INT_MAX_STR_DIGITS : nat := 4300.

Fixpoint lstrip_ascii (cs : list ascii) : list ascii :=
  match cs with
  | [] => []
  | c :: rest => if is_int_blank c then lstrip_ascii rest else cs
  end.

(** [int(s)]; [None] is [ValueError].  Below 256 the only decimal digits
    are ['0'..'9']; a numeral of more than [INT_MAX_STR_DIGITS] digits
    (underscores and the sign not counted) is refused. *)
Definition py_int (s : string) : option Z :=
  let cs := rev (lstrip_ascii (rev (lstrip_ascii (String.list_ascii_of_string s)))) in
  if (INT_MAX_STR_DIGITS <? length (filter (fun c => is_digit c = true) cs))%nat
  then None
  else
    match cs with
    | c :: digits =>
      if bool_decide (c = "-"%char) then Z.opp <$> parse_digits digits 0 false
      else if bool_decide (c = "+"%char) then parse_digits digits 0 false
      else parse_digits cs 0 false
    | [] => None
    end.

(** [IPv4Address._parse_octet]; [None] is [ValueError]. *)
Definition parse_octet (octet_str : string) : option Z :=
  let cs := String.list_ascii_of_string octet_str in
  match cs with
  | [] => None
  | first :: _ =>
    if negb (forallb is_digit cs) then None
    else if (3 <? length cs)%nat then None
    else if negb (bool_decide (octet_str = "0")) && bool_decide (first = "0"%char)
         then None
    else
      match parse_digits cs 0 false with
      | Some octet_int => if 255 <? octet_int then None else Some octet_int
      | None => None
      end
  end.

(** [ipaddress.IPv4Address(address)] for a string; [None] is
    [AddressValueError]. *)
Definition IPv4Address_parse (address : string) : option Z :=
  let octets := split_on "."%char address in
  if bool_decide (length octets = 4%nat)
  then int_from_bytes big <$> mapM parse_octet octets
  else None.

(** [saved.get(key)] on the insertion-ordered mapping. *)
Fixpoint dict_get (d : list (string * string)) (key : string) : option string :=
  match d with
  | [] => None
  | (k, v) :: rest => if bool_decide (k = key) then Some v else dict_get rest key
  end.

(** [saved[key] = value] *)
Fixpoint dict_set (d : list (string * string)) (key value : string)
  : list (string * string) :=
  match d with
  | [] => [(key, value)]
  | (k, v) :: rest =>
    if bool_decide (k = key) then (key, value) :: rest
    else (k, v) :: dict_set rest key value
  end.

(** ** Transport writes *)

(** [is_serial_ready()] *)
Definition is_serial_ready (w : world) : bool :=
  match esp32_serial_port w with
  | Some p => is_open p
  | None => false
  end.

Inductive send_result :=
| Sent (w : world)
| NotConnected              (** [RuntimeError("ESP32 is not connected.")] *)
| WriteFailed (exc : string) (** the exception raised by [write] *).

(** [send_serial_command(command)] *)
Definition send_serial_command (command : string) (w : world) : send_result :=
  match esp32_serial_port w with
  | Some p =>
    if is_open p then
      let command := if endswith command NL then command else command +:+ NL in
      match write_error p with
      | Some exc => WriteFailed exc
      | None =>
        Sent (set_serial_port
                (Some (SerialPort (port_name p) (is_open p) (write_error p)
                                  (written p ++ [command]))) w)
      end
    else NotConnected
  | None => NotConnected
  end.

(** Everything written to the transport so far. *)
Definition transport_writes (w : world) : list string :=
  match esp32_serial_port w with
  | Some p => written p
  | None => []
  end.

(** ** Console commands (closures of [handle_user_commands]) *)

(** A handler returns or lets an exception escape to the dispatch loop. *)
Inductive outcome :=
| Returned (w : world)
| Raised (exc : string) (w : world).

Definition warn (text : string) : string :=
  WARNING_COLOR +:+ text +:+ Style_RESET_ALL.

Definition not_connected (w : world) : outcome :=
  Returned (hold_prompt DEFAULT_PROMPT_DELAY
              (log_message (str "ESP32 is not connected.") WARNING None w)).

Definition help_commands : list (string * string) :=
  [ ("help", "Show this message.");
    ("join -s <ssid> -p <pass>", "Connect using provided credentials.");
    ("join -i <index>", "Connect to a saved network.");
    ("scan -all", "Scan the current subnet.");
    ("scan -t <ipv4>", "Probe a single IPv4 host.");
    ("networks", "List saved networks.");
    ("randomize_mac", "Randomise MAC before next join.");
    ("status", "Show ESP32 connection status.");
    ("ipconfig", "Display local host interface info.");
    ("reboot", "Reboot the ESP32 device.");
    ("clear", "Clear the console screen.");
    ("exit", "Stop the controller.") ].

Definition print_help (w : world) : world :=
  let w := print "" w in
  let w := print (HIGHLIGHT_COLOR +:+ "Available Commands:" +:+ Style_RESET_ALL) w in
  let w :=
    foldl (fun w '(command, description) =>
             print ("  " +:+ COMMAND_COLOR +:+ ljust 28 command
                    +:+ Style_RESET_ALL +:+ DESC_COLOR +:+ description
                    +:+ Style_RESET_ALL) w)
          w help_commands in
  print "" w.

Definition clear_console (w : world) : world :=
  let command := if bool_decide (os_name w = "nt") then "cls" else "clear" in
  set_shell_calls (shell_calls w ++ [command]) w.

Definition cmd_help (_args : list string) (w : world) : outcome :=
  Returned (hold_prompt DEFAULT_PROMPT_DELAY (print_help w)).

Definition cmd_exit (_args : list string) (w : world) : outcome :=
  let w := log_message (str "Exit requested. Stopping server...") INFO None w in
  Returned (release_prompt (set_stop_event true w)).

Definition cmd_clear (_args : list string) (w : world) : outcome :=
  Returned (hold_prompt 0.3 (clear_console w)).

Definition cmd_status (_args : list string) (w : world) : outcome :=
  let line1 :=
    match esp32_serial_port w with
    | Some p =>
      if is_open p
      then "Serial port: " +:+ Fore_GREEN +:+ "connected" +:+ Style_RESET_ALL
           +:+ " (" +:+ port_name p +:+ ")"
      else "Serial port: " +:+ Fore_RED +:+ "disconnected" +:+ Style_RESET_ALL
    | None => "Serial port: " +:+ Fore_RED +:+ "disconnected" +:+ Style_RESET_ALL
    end in
  let wifi_state := wifi_config_file w in
  let line2 :=
    "Saved networks: " +:+ Fore_CYAN
    +:+ int_to_str (Z.of_nat (length wifi_state)) +:+ Style_RESET_ALL in
  let w := print (NL +:+ HIGHLIGHT_COLOR +:+ "Status:" +:+ Style_RESET_ALL) w in
  let w := foldl (fun w line => print ("  " +:+ line) w) w [line1; line2] in
  Returned (hold_prompt DEFAULT_PROMPT_DELAY w).

Definition cmd_networks (_args : list string) (w : world) : outcome :=
  let saved := wifi_config_file w in
  match saved with
  | [] =>
    Returned (hold_prompt DEFAULT_PROMPT_DELAY
                (print (warn "No networks saved.") w))
  | _ :: _ =>
    let w := print (HIGHLIGHT_COLOR +:+ "Saved networks:" +:+ Style_RESET_ALL) w in
    let w :=
      foldl (fun w '(index, ssid) =>
               print ("  " +:+ Fore_MAGENTA +:+ "[" +:+ int_to_str (Z.of_nat index)
                      +:+ "]" +:+ Style_RESET_ALL +:+ " " +:+ COMMAND_COLOR
                      +:+ ssid +:+ Style_RESET_ALL) w)
            w (imap (fun index kv => (index, fst kv)) saved) in
    Returned (hold_prompt DEFAULT_PROMPT_DELAY w)
  end.

(** The option loop of [cmd_join]: either a usage line is printed and the
    handler returns, or the three locals are known. *)
Inductive join_options :=
| JoinUsage (text : string)
| JoinOptions (ssid password : option string) (index : option Z).

Definition one_of (token a b : string) : bool :=
  bool_decide (token = a) || bool_decide (token = b).

Fixpoint parse_join_options (args : list string) (ssid password : option string)
    (index : option Z) : join_options :=
  match args with
  | [] => JoinOptions ssid password index
  | token :: rest =>
    if one_of token "-i" "--index" then
      match rest with
      | [] => JoinUsage "Usage: join -i <index>"
      | value :: rest' =>
        match py_int value with
        | None => JoinUsage "Usage: join -i <index>"
        | Some i => parse_join_options rest' ssid password (Some i)
        end
      end
    else if one_of token "-s" "--ssid" then
      match rest with
      | [] => JoinUsage "Usage: join -s <ssid> -p <password>"
      | value :: rest' => parse_join_options rest' (Some value) password index
      end
    else if one_of token "-p" "--password" then
      match rest with
      | [] => JoinUsage "Usage: join -s <ssid> -p <password>"
      | value :: rest' => parse_join_options rest' ssid (Some value) index
      end
    else JoinUsage ("Unknown option: " +:+ token)
  end.

Definition join_usage : string :=
  "Usage:" +:+ NL +:+ "  join -s <ssid> -p <password>" +:+ NL
  +:+ "  join -i <index>".

Definition local_error (text : string) (w : world) : world :=
  hold_prompt DEFAULT_PROMPT_DELAY (print (warn text) w).

(** The credentials [cmd_join] settles on ([inl]), or the world in which it
    returned early ([inr]). *)
Definition resolve_join (ssid password : option string) (index : option Z)
    (w : world) : (string * string * world) + world :=
  let saved := wifi_config_file w in
  match index with
  | Some index =>
    let ssid_list := map fst saved in
    match ssid_list with
    | [] => inr (local_error "No saved networks available." w)
    | _ :: _ =>
      if (0 <=? index) && (index <? Z.of_nat (length ssid_list)) then
        let ssid := nth (Z.to_nat index) ssid_list "" in
        let password := default "" (dict_get saved ssid) in
        inl (ssid, password,
             log_message (str ("Joining saved network [" +:+ int_to_str index
                               +:+ "]: " +:+ ssid)) INFO None w)
      else inr (local_error "Error: Index out of bounds." w)
    end
  | None =>
    match ssid, password with
    | Some ssid, Some password =>
      if negb (bool_decide (ssid = "")) && negb (bool_decide (password = ""))
      then
        let w :=
          if bool_decide (dict_get saved ssid = Some password) then w
          else
            log_message (str ("Network '" +:+ ssid +:+ "' saved.")) INFO None
              (set_wifi_config_file (dict_set saved ssid password) w) in
        inl (ssid, password,
             log_message (str ("Joining new network: " +:+ ssid)) INFO None w)
      else inr (local_error join_usage w)
    | _, _ => inr (local_error join_usage w)
    end
  end.

Definition cmd_join (args : list string) (w : world) : outcome :=
  match parse_join_options args None None None with
  | JoinUsage text => Returned (local_error text w)
  | JoinOptions ssid password index =>
    match resolve_join ssid password index w with
    | inr w => Returned w
    | inl (ssid, password, w) =>
      match send_serial_command ("join " +:+ ssid +:+ " " +:+ password) w with
      | NotConnected => not_connected w
      | WriteFailed exc => Raised exc w
      | Sent w =>
        Returned (hold_prompt_until_status
                    ["WIFI_CONNECT_SUCCESS"; "WIFI_CONNECT_FAILURE"]
                    (Some 25%Q) 0.5 w)
      end
    end
  end.

Definition scan_usage : string := "Usage: scan -all | scan -t <ipv4>".

Definition cmd_scan (args : list string) (w : world) : outcome :=
  match args with
  | [] => Returned (local_error scan_usage w)
  | first :: others =>
    if one_of first "-all" "--all" then
      match send_serial_command "scan -all" w with
      | NotConnected => not_connected w
      | WriteFailed exc => Raised exc w
      | Sent w =>
        let w := log_message (str "Requested full subnet scan.") INFO
                             (Some Fore_CYAN) w in
        Returned (hold_prompt_until_status ["SCAN_CYCLE_END"] (Some 180%Q) 1.0 w)
      end
    else
      match others with
      | target_ip :: _ =>
        if bool_decide (first = "-t") then
          match IPv4Address_parse target_ip with
          | None => Returned (local_error "Error: Invalid IPv4 address." w)
          | Some _ =>
            match send_serial_command ("scan -t " +:+ target_ip) w with
            | NotConnected => not_connected w
            | WriteFailed exc => Raised exc w
            | Sent w =>
              let w := log_message (str ("Requested targeted scan: " +:+ target_ip))
                                   INFO (Some Fore_MAGENTA) w in
              Returned (hold_prompt_until_status ["SCAN_CYCLE_END"]
                                                 (Some 60%Q) 0.8 w)
            end
          end
        else Returned (local_error scan_usage w)
      | [] => Returned (local_error scan_usage w)
      end
  end.

Definition cmd_randomize_mac (_args : list string) (w : world) : outcome :=
  match send_serial_command "randomize_mac" w with
  | NotConnected => not_connected w
  | WriteFailed exc => Raised exc w
  | Sent w =>
    let w := log_message (str "Requested MAC randomisation.") INFO
                         (Some Fore_CYAN) w in
    Returned (hold_prompt 0.6 w)
  end.

Definition cmd_reboot (_args : list string) (w : world) : outcome :=
  match send_serial_command "reboot" w with
  | NotConnected => not_connected w
  | WriteFailed exc => Raised exc w
  | Sent w =>
    let w := clear_console w in
    let w := log_message
               (str "Reboot command sent. Waiting for ESP32 to reconnect...")
               INFO (Some Fore_CYAN) w in
    Returned (hold_prompt_until_status ["DEVICE_READY"] (Some 20%Q) 1.0 w)
  end.

Definition cmd_ipconfig (_args : list string) (w : world) : outcome :=
  let w := print "" w in
  if ipconfig_found w then
    Returned (hold_prompt 1.2 (set_shell_calls (shell_calls w ++ ["ipconfig"]) w))
  else
    Returned (local_error "ipconfig command not found." w).

Definition handler := list string -> world -> outcome.

Definition command_map : gmap string handler :=
  list_to_map
    [ ("help", cmd_help);
      ("exit", cmd_exit);
      ("quit", cmd_exit);
      ("q", cmd_exit);
      ("clear", cmd_clear);
      ("cls", cmd_clear);
      ("status", cmd_status);
      ("networks", cmd_networks);
      ("join", cmd_join);
      ("scan", cmd_scan);
      ("randomize_mac", cmd_randomize_mac);
      ("randomise_mac", cmd_randomize_mac);
      ("reboot", cmd_reboot);
      ("ipconfig", cmd_ipconfig) ].

(** The [try]/[except Exception] around the handler call. *)
Definition settle (command : string) (o : outcome) : world :=
  match o with
  | Returned w => w
  | Raised exc w =>
    hold_prompt DEFAULT_PROMPT_DELAY
      (log_message (str ("Command '" +:+ command +:+ "' failed: " +:+ exc))
                   ERROR None w)
  end.

(** Lines 519--533: look the verb up and run its handler. *)
Definition dispatch (tokens : list string) (w : world) : world :=
  match tokens with
  | [] => w
  | verb :: args =>
    let command := lower verb in
    match command_map !! command with
    | None =>
      local_error "Unknown command. Type 'help' for a list of commands." w
    | Some run => settle command (run args w)
    end
  end.

Section Console.

(** [shlex.split]: the tokens of a line, or the text of the [ValueError]
    it raises on unbalanced quoting. *)
Variable shlex_split : string -> string + list string.

(** One line read at the prompt (lines 509--533). *)
Definition handle_user_command (raw_input : string) (w : world) : world :=
  if forallb (fun c => isspace (ascii_code c))
             (String.list_ascii_of_string raw_input)
  then w
  else
    match shlex_split raw_input with
    | inl exc => local_error ("Parse error: " +:+ exc) w
    | inr tokens => dispatch tokens w
    end.

End Console.

(** ** Notions used in the statements *)

(** The registries the controller can reach: every event in use was handed
    out by the allocator, and no two registered waiters share an event
    (each [register_status_waiter] makes a fresh [threading.Event]). *)
Definition registry_wf (r : registry) : Prop :=
  Forall (fun w => (event w < next_event r)%nat) (status_waiters r)
  ∧ NoDup (event <$> status_waiters r)
  ∧ Forall (fun e => (e < next_event r)%nat) (set_calls r).

(** How many times [set()] was called on the event [e]. *)
Definition set_count (r : registry) (e : nat) : nat :=
  length (filter (fun x => x = e) (set_calls r)).

(** The controller as it starts: the prompt event is set, nobody waits, no
    port is open yet. *)
Definition initial_world : world :=
  World empty_registry (Gate true [] []) false [] [] None [] [] "nt" true.

(** An option of [join] that is absent or empty. *)
Definition missing (o : option string) : Prop := o = None ∨ o = Some "".

(** The ways a [scan] or [join] line fails validation, each with the
    text the program answers with: a [-t] target that is not an IPv4
    address; [scan] without its option or without a target; an index given
    while no network is saved; an index outside the saved networks; an
    option without its value or an index that does not read as an integer;
    an option that does not exist; and credentials that are absent or
    empty. *)
Inductive validation_fault (w : world) : list string → string → Prop :=
| invalid_ipv4 verb target others :
    lower verb = "scan" → IPv4Address_parse target = None →
    validation_fault w (verb :: "-t" :: target :: others)
                     "Error: Invalid IPv4 address."
| scan_without_option verb :
    lower verb = "scan" →
    validation_fault w [verb] "Usage: scan -all | scan -t <ipv4>"
| scan_without_target verb :
    lower verb = "scan" →
    validation_fault w [verb; "-t"] "Usage: scan -all | scan -t <ipv4>"
| join_index_without_networks verb args ssid password index :
    lower verb = "join" →
    parse_join_options args None None None
    = JoinOptions ssid password (Some index) →
    wifi_config_file w = [] →
    validation_fault w (verb :: args) "No saved networks available."
| join_index_out_of_range verb args ssid password index :
    lower verb = "join" →
    parse_join_options args None None None
    = JoinOptions ssid password (Some index) →
    wifi_config_file w ≠ [] →
    ¬ (0 ≤ index < Z.of_nat (length (wifi_config_file w))) →
    validation_fault w (verb :: args) "Error: Index out of bounds."
| join_index_unreadable verb args :
    lower verb = "join" →
    parse_join_options args None None None
    = JoinUsage "Usage: join -i <index>" →
    validation_fault w (verb :: args) "Usage: join -i <index>"
| join_option_without_value verb args :
    lower verb = "join" →
    parse_join_options args None None None
    = JoinUsage "Usage: join -s <ssid> -p <password>" →
    validation_fault w (verb :: args) "Usage: join -s <ssid> -p <password>"
| join_unknown_option verb args token :
    lower verb = "join" →
    parse_join_options args None None None
    = JoinUsage ("Unknown option: " +:+ token) →
    validation_fault w (verb :: args) ("Unknown option: " +:+ token)
| join_without_credentials verb args ssid password :
    lower verb = "join" →
    parse_join_options args None None None = JoinOptions ssid password None →
    missing ssid ∨ missing password →
    validation_fault w (verb :: args)
                     ("Usage:" +:+ NL +:+ "  join -s <ssid> -p <password>"
                      +:+ NL +:+ "  join -i <index>").

(** A controller in the middle of a session: the port is open and has
    carried one command, and one network is saved. *)
Definition connected_world : world :=
  set_serial_port (Some (SerialPort "COM3" true None ["reboot" +:+ NL]))
    (set_wifi_config_file [("lab", "pw1")] initial_world).

(** [c.upper()] on ASCII. *)
Definition ascii_upper (c : ascii) : ascii :=
  let n := ascii_code c in
  if (97 <=? n) && (n <=? 122) then ascii_of_N (Z.to_N (n - 32)) else c.

(** The spelling of [s] whose letters marked in [mask] are in upper
    case. *)
Fixpoint capitalized (mask : list bool) (s : string) : string :=
  match s, mask with
  | String c rest, true :: mask' =>
    String (ascii_upper c) (capitalized mask' rest)
  | String c rest, false :: mask' => String c (capitalized mask' rest)
  | _, _ => s
  end.

(** ** Sequences of registry operations *)

(** The three things the controller does to the registry. *)
Inductive registry_op :=
| OpRegister (names : list string)
| OpUnregister (e : nat)
| OpNotify (name : string).

Definition apply_op (r : registry) (op : registry_op) : registry :=
  match op with
  | OpRegister names => snd (register_status_waiter names r)
  | OpUnregister e => unregister_status_waiter e r
  | OpNotify name => notify_status_waiters name r
  end.

(** The registry after the operations [ops], starting with no waiter. *)
Definition run_ops (ops : list registry_op) : registry :=
  foldl apply_op empty_registry ops.

(** No event was set twice, and no waiter still registered has its event
    set. *)
Definition fired_once (r : registry) : Prop :=
  NoDup (set_calls r)
  ∧ ∀ w, w ∈ status_waiters r → event w ∉ set_calls r.

(** ** Frames and lines as the device sends them *)

(** A status report on the wire: the marker and its five payload bytes. *)
Definition frame (payload : list Z) : list Z := MAGIC_BYTE :: payload.

(** Printable ASCII, the space included. *)
Definition printable (c : Z) : Prop := 0x20 ≤ c < 0x7F.

(** What the device puts on the wire: a status report with its payload, or
    a line of text. *)
Inductive wire_unit :=
| Report (payload : list Z)
| Line (text : list Z).

Definition on_wire (u : wire_unit) : list Z :=
  match u with
  | Report payload => frame payload
  | Line text => text ++ [NEWLINE]
  end.

(** A report has a five-byte payload; a line is non-empty printable ASCII
    that neither starts nor ends with a space. *)
Definition well_formed_unit (u : wire_unit) : Prop :=
  match u with
  | Report payload => length payload = 5%nat
  | Line text =>
    text ≠ [] ∧ Forall printable text
    ∧ head text ≠ Some 0x20 ∧ last text ≠ Some 0x20
  end.

(** The event a unit is expected to come out as. *)
Definition decoded_as (host : byteorder) (u : wire_unit) : decoder_event :=
  match u with
  | Report payload => decode_report host payload
  | Line text => DebugEvent text
  end.

(** ** Background waits (the [wait_and_release] closure) *)

(** The [i]-th [wait_and_release] thread from the moment
    [event.wait(timeout)] returns.  It returns [True] when the event is
    set; it can return [False] only if there is a timeout.  The thread then
    unregisters its waiter and sets the prompt event, after sleeping
    [fallback_delay] when the wait timed out and the delay is not zero;
    that sleep-then-set is a release timer like the one of [hold_prompt].
    [time.sleep] raises [ValueError] on a negative delay: the thread then
    ends without setting the event. *)
Definition wait_and_release (i : nat) (w : world) : world :=
  match wait_threads (prompt w) !! i with
  | None => w
  | Some t =>
    let triggered := bool_decide (awaited t ∈ set_calls (waiters w)) in
    if negb triggered && bool_decide (timeout t = None) then w
    else
      let w := set_waiters (unregister_status_waiter (awaited t) (waiters w)) w in
      let threads := delete i (wait_threads (prompt w)) in
      if negb triggered && negb (Qeq_bool (fallback_delay t) 0)
      then
        if Qle_bool 0 (fallback_delay t)
        then set_prompt (Gate (prompt_ready (prompt w))
                              (timers (prompt w) ++ [fallback_delay t])
                              threads) w
        else set_prompt (Gate (prompt_ready (prompt w)) (timers (prompt w))
                              threads) w
      else set_prompt (Gate true (timers (prompt w)) threads) w
  end.

(** What a command may do to the gate: release it, hold it on a new timer,
    or hold it on a new background wait.  In each case a release is
    armed. *)
Definition gate_step (g g' : gate) : Prop :=
  g' = Gate true (timers g) (wait_threads g)
  ∨ (∃ delay, g' = Gate false (timers g ++ [delay]) (wait_threads g))
  ∨ (∃ t, g' = Gate false (timers g) (wait_threads g ++ [t])).

(** An update that leaves the gate and the port as they are (it prints,
    logs, saves or calls the shell). *)
Definition quiet (w w' : world) : Prop :=
  prompt w' = prompt w ∧ esp32_serial_port w' = esp32_serial_port w.

(** What a command may do to the transport: nothing, or, on a ready port,
    write one newline-terminated line and leave with the prompt held. *)
Definition transport_step (w w' : world) : Prop :=
  esp32_serial_port w' = esp32_serial_port w
  ∨ (is_serial_ready w = true
     ∧ prompt_ready (prompt w') = false
     ∧ ∃ line, transport_writes w' = transport_writes w ++ [line]
               ∧ endswith line NL = true).

(** What a handler is allowed to do, seen from the dispatch loop. *)
Definition command_effect (w : world) (o : outcome) : Prop :=
  match o with
  | Returned w' => gate_step (prompt w) (prompt w') ∧ transport_step w w'
  | Raised _ w' => quiet w w'
  end.

(** The line [send_serial_command] puts on the wire for [command]. *)
Definition wire_line (command : string) : string :=
  if endswith command NL then command else command +:+ NL.

(** A string without a dot. *)
Definition dotless (s : string) : bool :=
  forallb (fun c => negb (bool_decide (c = "."%char)))
          (String.list_ascii_of_string s).

(** The decimal form of [b] has no dot and reads back as [b]. *)
Definition octet_reads_back (b : Z) : bool :=
  bool_decide (parse_octet (int_to_str b) = Some b) && dotless (int_to_str b).

(** ** Port discovery ([find_esp32_port]) *)

(** One entry of [serial.tools.list_ports.comports()]. *)
Record port_info := PortInfo { device : string; description : string }.

(** [needle in s] for strings. *)
Fixpoint str_contains (needle s : string) : bool :=
  String.prefix needle s
  || match s with
     | EmptyString => false
     | String _ rest => str_contains needle rest
     end.

Definition ADAPTER_MARKS : list string := ["CP210x"; "CH340"; "USB-SERIAL"].

(** The test of the [if] in [find_esp32_port]. *)
Definition is_adapter (port : port_info) : bool :=
  str_contains "CP210x" (description port)
  || str_contains "CH340" (description port)
  || str_contains "USB-SERIAL" (description port).

(** [find_esp32_port()] on the ports the system lists. *)
Fixpoint find_esp32_port (ports : list port_info) (w : world)
  : option string * world :=
  match ports with
  | [] => (None, w)
  | port :: rest =>
    if is_adapter port then
      (Some (device port),
       log_message (str ("ESP32 found on " +:+ device port)) INFO None w)
    else find_esp32_port rest w
  end.

(** ** One pass of the reader thread's outer loop *)

(** What [esp32_serial_port.read] does in this pass: it returns bytes
    (possibly none), or raises [SerialException] / [ConnectionResetError]. *)
Inductive read_result :=
| ReadBytes (chunk : list Z)
| ReadFails.

(** One pass of [while not stop_event.is_set()] (lines 201--279). *)
Definition serial_reader_iteration (host : byteorder) (r : read_result)
    (st : list Z * world) : list Z * world :=
  if stop_event (snd st) then st
  else if is_serial_ready (snd st) then
    match r with
    | ReadBytes chunk => serial_reader_step host chunk st
    | ReadFails =>
      (fst st,
       set_serial_port None
         (log_message (str "ESP32 disconnected.") WARNING None (snd st)))
    end
  else ([], snd st).

(** The commands that wait for the device, each with a status code that
    ends the wait. *)
Inductive completes : list string → Z → Prop :=
| scan_all_ends : completes ["scan"; "-all"] 6
| scan_target_ends target :
    IPv4Address_parse target ≠ None → completes ["scan"; "-t"; target] 6
| reboot_ends : completes ["reboot"] 16
| join_succeeds ssid password :
    ssid ≠ "" → password ≠ "" →
    completes ["join"; "-s"; ssid; "-p"; password] 10
| join_fails ssid password :
    ssid ≠ "" → password ≠ "" →
    completes ["join"; "-s"; ssid; "-p"; password] 11.

(** An update that leaves the gate, the port and the registry as they
    are. *)
Definition still (w w' : world) : Prop :=
  quiet w w' ∧ waiters w' = waiters w.

(** What a command may do to the registry and the background waits:
    nothing, or, with the port open, register one waiter together with a
    background wait on that waiter's event that has a timeout. *)
Definition waits_step (w w' : world) : Prop :=
  (waiters w' = waiters w
   ∧ wait_threads (prompt w') = wait_threads (prompt w))
  ∨ ∃ names limit fallback,
      is_serial_ready w = true
      ∧ waiters w' = snd (register_status_waiter names (waiters w))
      ∧ wait_threads (prompt w')
        = wait_threads (prompt w)
          ++ [WaitThread (next_event (waiters w)) (Some limit) fallback].

Definition waits_effect (w : world) (o : outcome) : Prop :=
  match o with
  | Returned w' => waits_step w w'
  | Raised _ w' => still w w'
  end.

(** * Properties *)

(** ** Status table *)

Lemma status_name_unlisted c :
  c ∉ [10; 11; 15; 16; 1; 2; 3; 4; 5; 6] → STATUS_MAP !! c = None.
Proof.
  intros Hc. unfold STATUS_MAP. apply not_elem_of_list_to_map_1. exact Hc.
Qed.

(** C2, as the code has it: the ten listed codes map to their names, with
    10 and 11 spelled [WIFI_CONNECT_SUCCESS] and [WIFI_CONNECT_FAILURE], and
    every other code [c] maps to [UNKNOWN (c)] with a space before the
    parenthesis; the lookup is total, so nothing is raised. *)
Theorem status_name_table (c : Z) :
  status_name c =
    if c =? 10 then "WIFI_CONNECT_SUCCESS"
    else if c =? 11 then "WIFI_CONNECT_FAILURE"
    else if c =? 15 then "SCANNING_TARGET"
    else if c =? 16 then "DEVICE_READY"
    else if c =? 1 then "TARGET_UNREACHABLE"
    else if c =? 2 then "PORT_OPEN"
    else if c =? 3 then "SERVICE_NO_RESPONSE"
    else if c =? 4 then "SERVICE_RESPONDED"
    else if c =? 5 then "SCAN_CYCLE_START"
    else if c =? 6 then "SCAN_CYCLE_END"
    else "UNKNOWN (" +:+ int_to_str c +:+ ")".
Proof.
  repeat match goal with
         | |- context [?a =? ?b] =>
           destruct (Z.eqb_spec a b) as [->|?]; [vm_compute; reflexivity|]
         end.
  unfold status_name. rewrite status_name_unlisted; [reflexivity|].
  rewrite !elem_of_cons, elem_of_nil. lia.
Qed.

(** C2, as the specification words it, fails: code 10 is not named
    [CONNECT_SUCCESS], code 11 is not named [CONNECT_FAILURE], and code 200
    is rendered [UNKNOWN (200)], not [UNKNOWN(200)]. *)
Lemma status_name_not_as_listed :
  status_name 10 ≠ "CONNECT_SUCCESS"
  ∧ status_name 11 ≠ "CONNECT_FAILURE"
  ∧ status_name 200 = "UNKNOWN (200)"
  ∧ status_name 200 ≠ "UNKNOWN(200)".
Proof. vm_compute. repeat split; congruence. Qed.

(** ** Address display *)

Lemma to_bytes_from_bytes_little (bs : list Z) :
  Forall is_byte bs →
  to_bytes_little (length bs) (from_bytes_little bs) = bs.
Proof.
  induction 1 as [|b bs Hb _ IH]; [reflexivity|].
  unfold is_byte in Hb. cbn [length from_bytes_little to_bytes_little].
  assert (∀ r, (b + 256 * r) mod 256 = b) as E1
    by (intros; Z.div_mod_to_equations; lia).
  assert (∀ r, (b + 256 * r) / 256 = r) as E2
    by (intros; Z.div_mod_to_equations; lia).
  by rewrite E1, E2, IH.
Qed.

(** On a little-endian host [htonl] reverses the bytes of the value that
    [struct.unpack('<I')] produced, so the big-endian octets of the result
    are the input bytes again. *)
Lemma network_order_octets (bs : list Z) :
  length bs = 4%nat → Forall is_byte bs →
  int_to_bytes big 4 (socket_htonl little (int_from_bytes little bs)) = bs.
Proof.
  intros Hlen Hbs. unfold socket_htonl, int_to_bytes, int_from_bytes.
  rewrite <- Hlen at 2. rewrite to_bytes_from_bytes_little by done.
  replace 4%nat with (length (rev bs)) by (by rewrite length_rev).
  rewrite to_bytes_from_bytes_little by (by apply Forall_rev).
  apply rev_involutive.
Qed.

(** C9: on a little-endian host, the address of a status report is
    displayed as the dotted quad whose octets are the four address bytes in
    the order they arrive on the stream; this is the event the loop hands
    on for a frame at the head of the buffer. *)
Theorem report_address_in_stream_order
    (host : byteorder) (a b c d status_code : Z) (rest : list Z) :
  host = little →
  is_byte a → is_byte b → is_byte c → is_byte d →
  let shown :=
    StatusEvent
      (int_to_str a +:+ "." +:+ int_to_str b +:+ "." +:+ int_to_str c
       +:+ "." +:+ int_to_str d)
      status_code (status_name status_code) in
  decode_report host [a; b; c; d; status_code] = shown
  ∧ loop_body host (MAGIC_BYTE :: a :: b :: c :: d :: status_code :: rest)
    = Unit (Some shown) 6.
Proof.
  intros -> Ha Hb Hc Hd shown.
  assert (decode_report little [a; b; c; d; status_code] = shown) as E.
  { unfold decode_report, struct_unpack_IB.
    cbn [take nth]. unfold IPv4Address_str.
    rewrite network_order_octets
      by (try reflexivity; repeat (apply Forall_cons_2; [assumption|]);
          apply Forall_nil_2).
    reflexivity. }
  split; [exact E|]. unfold loop_body. cbn [nth]. rewrite Z.eqb_refl.
  change (length _ <? 1 + report_size)%nat with false. cbn iota.
  change (take report_size (drop 1 _)) with [a; b; c; d; status_code].
  by rewrite E.
Qed.

Lemma report_address_in_stream_order_witness :
  decode_report little [192; 168; 1; 42; 10]
  = StatusEvent "192.168.1.42" 10 "WIFI_CONNECT_SUCCESS"
  ∧ loop_body little [0xAB; 192; 168; 1; 42; 10; 104; 105]
    = Unit (Some (StatusEvent "192.168.1.42" 10 "WIFI_CONNECT_SUCCESS")) 6.
Proof.
  apply (report_address_in_stream_order little 192 168 1 42 10 [104; 105]);
    [reflexivity | unfold is_byte; lia ..].
Defined.

(** [socket.htonl] is the identity on a big-endian host, where the same
    frame is displayed with its octets reversed and not in stream order. *)
Example big_endian_host_reverses_octets :
  decode_report big [192; 168; 1; 42; 10]
  = StatusEvent "42.1.168.192" 10 "WIFI_CONNECT_SUCCESS"
  ∧ decode_report big [192; 168; 1; 42; 10]
    ≠ StatusEvent "192.168.1.42" 10 "WIFI_CONNECT_SUCCESS".
Proof. split; [vm_compute; reflexivity | vm_compute; discriminate]. Qed.

(** ** Frame decoder: the loop *)

Lemma bytes_find_None (needle : Z) (buffer : list Z) :
  bytes_find needle buffer = None ↔ needle ∉ buffer.
Proof.
  induction buffer as [|b rest IH]; simpl.
  - split; [intros _; apply not_elem_of_nil | done].
  - rewrite not_elem_of_cons. destruct (Z.eqb_spec b needle) as [->|Hne].
    + split; [done | intros [? _]; done].
    + destruct (bytes_find needle rest); simpl.
      * split; [done | intros [_ H]; by apply IH in H].
      * split; [intros _; split; [congruence | by apply IH] | done].
Qed.

Lemma bytes_find_Some (needle : Z) (buffer : list Z) (i : nat) :
  bytes_find needle buffer = Some i →
  (i < length buffer)%nat ∧ buffer !! i = Some needle
  ∧ needle ∉ take i buffer.
Proof.
  revert i. induction buffer as [|b rest IH]; intros i; simpl; [done|].
  destruct (Z.eqb_spec b needle) as [->|Hne].
  - intros [= <-]. simpl. repeat split; [lia | apply not_elem_of_nil].
  - destruct (bytes_find needle rest) as [j|]; simpl; [|done].
    intros [= <-]. destruct (IH j eq_refl) as (? & ? & ?). simpl.
    repeat split; [lia | done |]. rewrite not_elem_of_cons. split; congruence.
Qed.

Lemma bytes_find_app (needle : Z) (a b : list Z) (i : nat) :
  bytes_find needle a = Some i → bytes_find needle (a ++ b) = Some i.
Proof.
  revert i. induction a as [|x a IH]; intros i; simpl; [done|].
  destruct (x =? needle); [done|].
  destruct (bytes_find needle a) as [j|]; simpl; [|done].
  intros [= <-]. by rewrite (IH j eq_refl).
Qed.

Section DecoderFacts.

Variable host : byteorder.

Lemma loop_body_Unit (buffer : list Z) ev n :
  loop_body host buffer = Unit ev n → (1 ≤ n ≤ length buffer)%nat.
Proof.
  unfold loop_body. destruct (_ =? MAGIC_BYTE).
  - destruct (Nat.ltb_spec (length buffer) (1 + report_size)); [done|].
    intros [= <- <-]. lia.
  - destruct (bytes_find NEWLINE buffer) as [idx|] eqn:Hfind.
    + apply bytes_find_Some in Hfind as (? & _ & _).
      destruct (bytes_decode ignore _); [|done]. intros [= <- <-]. lia.
    + by destruct (_ <? _)%nat.
Qed.

Lemma loop_body_Fault (buffer : list Z) n :
  loop_body host buffer = Fault n → (1 ≤ n ≤ length buffer)%nat.
Proof.
  unfold loop_body. destruct (_ =? MAGIC_BYTE).
  - by destruct (_ <? _)%nat.
  - destruct (bytes_find NEWLINE buffer) as [idx|] eqn:Hfind.
    + apply bytes_find_Some in Hfind as (? & _ & _).
      destruct (bytes_decode ignore _); [done|]. intros [= <-]. lia.
    + by destruct (_ <? _)%nat.
Qed.

Lemma loop_body_Break_uncapped (buffer kept : list Z) :
  loop_body host buffer = Break kept false → kept = buffer.
Proof.
  unfold loop_body. destruct (_ =? MAGIC_BYTE).
  - destruct (_ <? _)%nat; [|done]. by intros [= <-].
  - destruct (bytes_find NEWLINE buffer).
    + by destruct (bytes_decode ignore _).
    + destruct (_ <? _)%nat; [done|]. by intros [= <-].
Qed.

(** What the decoder does with the head of the buffer is settled by the
    bytes already there: more bytes behind them do not change a unit
    that was taken. *)
Lemma loop_body_Unit_app (a b : list Z) ev n :
  loop_body host a = Unit ev n → loop_body host (a ++ b) = Unit ev n.
Proof.
  unfold loop_body. destruct a as [|x a]; [done|].
  change (nth 0 ((x :: a) ++ b) 0) with x. change (nth 0 (x :: a) 0) with x.
  destruct (x =? MAGIC_BYTE).
  - destruct (Nat.ltb_spec (length (x :: a)) (1 + report_size)) as [|Hlen];
      [done|].
    intros [= <- <-].
    destruct (Nat.ltb_spec (length ((x :: a) ++ b)) (1 + report_size))
      as [Hlt|_].
    { rewrite length_app in Hlt. lia. }
    do 2 f_equal. simpl. simpl in Hlen. unfold report_size in *.
    rewrite !drop_0. rewrite take_app_le by lia. done.
  - destruct (bytes_find NEWLINE (x :: a)) as [idx|] eqn:Hfind.
    + rewrite (bytes_find_app _ _ b _ Hfind).
      apply bytes_find_Some in Hfind as (Hidx & _ & _).
      rewrite take_app_le by lia. done.
    + by destruct (_ <? _)%nat.
Qed.

(** Fuel beyond the length of the buffer is never used. *)
Lemma drain_fuel (f1 f2 : nat) (buffer : list Z) :
  (length buffer ≤ f1)%nat → (length buffer ≤ f2)%nat →
  drain host f1 buffer = drain host f2 buffer.
Proof.
  revert f2 buffer. induction f1 as [|f1 IH]; intros f2 buffer H1 H2.
  - destruct buffer; [|simpl in H1; lia]. by destruct f2.
  - destruct f2 as [|f2].
    { destruct buffer; [done | simpl in H2; lia]. }
    destruct buffer as [|x rest]; [done|]. cbn [drain].
    destruct (loop_body host (x :: rest)) as [ev n| |] eqn:Hbody; [|done..].
    apply loop_body_Unit in Hbody. f_equal.
    apply IH; rewrite length_drop; simpl in *; lia.
Qed.

Lemma run_loop_fuel (fuel : nat) (buffer : list Z) :
  (length buffer ≤ fuel)%nat → drain host fuel buffer = run_loop host buffer.
Proof. intros. by apply drain_fuel. Qed.

Lemma run_loop_cons (x : Z) (rest : list Z) :
  run_loop host (x :: rest)
  = match loop_body host (x :: rest) with
    | Unit ev n => emit ev (run_loop host (drop n (x :: rest)))
    | Break kept capped => Drained [] kept capped false
    | Fault n => Drained [] (drop n (x :: rest)) false true
    end.
Proof.
  unfold run_loop at 1. cbn [length drain].
  destruct (loop_body host (x :: rest)) as [ev n| |] eqn:Hbody; [|done..].
  apply loop_body_Unit in Hbody. f_equal.
  apply run_loop_fuel. rewrite length_drop. simpl in *. lia.
Qed.

(** C7: while the buffer starts with the marker and holds fewer than six
    bytes the loop emits nothing and leaves every byte in place; and an
    iteration hands on a status report only from a buffer that starts with
    the marker and holds at least six bytes, of which it takes exactly
    six. *)
Theorem short_frame_waits (buffer : list Z) :
  (head buffer = Some MAGIC_BYTE → (length buffer < 6)%nat →
     run_loop host buffer = Drained [] buffer false false)
  ∧ (∀ ip_str status_code status_str n,
       loop_body host buffer
       = Unit (Some (StatusEvent ip_str status_code status_str)) n →
       head buffer = Some MAGIC_BYTE ∧ (6 ≤ length buffer)%nat ∧ n = 6%nat).
Proof.
  split.
  - destruct buffer as [|x rest]; [done|]. intros [= ->] Hlen.
    rewrite run_loop_cons. unfold loop_body. cbn [nth].
    rewrite Z.eqb_refl.
    destruct (Nat.ltb_spec (length (MAGIC_BYTE :: rest)) (1 + report_size));
      [done | unfold report_size in *; lia].
  - intros ip_str status_code status_str n. unfold loop_body.
    destruct (Z.eqb_spec (nth 0 buffer 0) MAGIC_BYTE) as [Hm|_].
    + destruct (Nat.ltb_spec (length buffer) (1 + report_size)); [done|].
      intros [= _ <-]. destruct buffer as [|x rest]; [simpl in *; lia|].
      simpl in Hm. subst x. unfold report_size in *. done.
    + destruct (bytes_find NEWLINE buffer).
      * destruct (bytes_decode ignore _) as [text|]; [|done].
        by destruct (strip text).
      * by destruct (_ <? _)%nat.
Qed.

(** C8: a buffer that does not start with the marker, holds no newline
    and is longer than 2048 bytes is cut down to its last 256 bytes; the
    loop emits nothing and stops until the next read. *)
Theorem unterminated_buffer_capped (buffer : list Z) :
  head buffer ≠ Some MAGIC_BYTE → NEWLINE ∉ buffer →
  (2048 < length buffer)%nat →
  run_loop host buffer
  = Drained [] (drop (length buffer - 256) buffer) true false
  ∧ length (residue (run_loop host buffer)) = 256%nat
  ∧ ∃ dropped, buffer = dropped ++ residue (run_loop host buffer).
Proof.
  intros Hhead Hnl Hlen.
  assert (run_loop host buffer
          = Drained [] (drop (length buffer - 256) buffer) true false) as ->.
  { destruct buffer as [|x rest]; [simpl in Hlen; lia|].
    rewrite run_loop_cons. unfold loop_body. cbn [nth].
    destruct (Z.eqb_spec x MAGIC_BYTE) as [->|_]; [done|].
    apply bytes_find_None in Hnl. rewrite Hnl.
    by destruct (Nat.ltb_spec 2048 (length (x :: rest))); [|lia]. }
  split; [done|]. cbn [residue]. split.
  - rewrite length_drop. lia.
  - exists (take (length buffer - 256) buffer). by rewrite take_drop.
Qed.

End DecoderFacts.

Lemma short_frame_waits_witness :
  run_loop little [0xAB; 192; 168; 1; 42]
  = Drained [] [0xAB; 192; 168; 1; 42] false false.
Proof.
  apply (proj1 (short_frame_waits little [0xAB; 192; 168; 1; 42]));
    [reflexivity | simpl; lia].
Defined.

Lemma unterminated_buffer_capped_witness :
  run_loop little (replicate 2049 97)
  = Drained [] (replicate 256 97) true false.
Proof.
  destruct (unterminated_buffer_capped little (replicate 2049 97)) as [E _].
  - vm_compute. congruence.
  - apply (bool_decide_unpack _). vm_compute. exact I.
  - rewrite length_replicate. lia.
  - rewrite E. vm_compute. reflexivity.
Defined.

(** ** Debug text *)

(** With [errors='ignore'] the decoder cannot raise: malformed ranges
    simply contribute nothing to the text. *)
Lemma handle_items_ignore (items : list utf8_item) :
  handle_items ignore items = Some (well_formed_chars items).
Proof.
  induction items as [|[cp|] items IH]; simpl; [done| |done].
  by rewrite IH.
Qed.

Lemma bytes_decode_ignore (bs : list Z) :
  bytes_decode ignore bs = Some (well_formed_chars (utf8_scan bs)).
Proof. apply handle_items_ignore. Qed.

Lemma list_length_ind {A} (P : list A → Prop) :
  (∀ l, (∀ l', (length l' < length l)%nat → P l') → P l) → ∀ l, P l.
Proof.
  intros step l. remember (length l) as n eqn:Hn. revert l Hn.
  induction (lt_wf n) as [n _ IH]. intros l ->.
  apply step. intros l' Hlt. by apply (IH (length l')).
Qed.

Ltac utf8_bounds :=
  unfold is_continuation in *;
  repeat match goal with
         | H : (_ && _) = true |- _ => apply andb_true_iff in H as [? ?]
         | H : (_ || _) = false |- _ => apply orb_false_iff in H as [? ?]
         | H : negb _ = false |- _ => apply negb_false_iff in H
         | H : (if ?b then _ else _) = false |- _ => destruct b eqn:?
         | H : (_ <? _) = true |- _ => apply Z.ltb_lt in H
         | H : (_ <? _) = false |- _ => apply Z.ltb_ge in H
         | H : (_ <=? _) = true |- _ => apply Z.leb_le in H
         | H : (_ <=? _) = false |- _ => apply Z.leb_gt in H
         | H : (_ =? _) = true |- _ => apply Z.eqb_eq in H
         | H : (_ =? _) = false |- _ => apply Z.eqb_neq in H
         end.

(** A replacement character in the scan of [s] is never made up by the
    decoder: it is the decoding of a three-byte sequence that starts with
    the byte [0xEF]. *)
Lemma utf8_scan_replacement_origin (s : list Z) :
  Char REPLACEMENT_CHARACTER ∈ utf8_scan s → 0xEF ∈ s.
Proof.
  induction s as [s IH] using list_length_ind.
  destruct s as [|ch r1]; [by intros ?%elem_of_nil|].
  assert (∀ l, (length l ≤ length r1)%nat →
               Char REPLACEMENT_CHARACTER ∈ utf8_scan l → 0xEF ∈ l) as IH'.
  { intros l Hl. apply IH. simpl. lia. }
  clear IH. unfold REPLACEMENT_CHARACTER in *. cbn [utf8_scan].
  intros H.
  repeat match type of H with
         | context [match ?l with [] => _ | _ :: _ => _ end] => destruct l
         | context [if ?b then _ else _] => destruct b eqn:?
         end;
    utf8_bounds;
    repeat match type of H with
           | _ ∈ _ :: _ => apply elem_of_cons in H as [H|H]
           | _ ∈ [] => by apply elem_of_nil in H
           end;
    try discriminate H;
    try (injection H as H;
         assert (ch = 0xEF) as -> by lia; by apply list_elem_of_here);
    try (exfalso; injection H as H; lia);
    try (apply IH' in H; [|simpl; lia];
         rewrite ?elem_of_cons in *; tauto).
Qed.

Lemma well_formed_chars_elem (cp : Z) (items : list utf8_item) :
  cp ∈ well_formed_chars items ↔ Char cp ∈ items.
Proof.
  unfold well_formed_chars. rewrite list_elem_of_omap. split.
  - intros ([cp'|] & Hin & Heq); by simplify_eq.
  - intros Hin. by exists (Char cp).
Qed.

Section DebugLines.

Variable host : byteorder.

(** C5, as the code has it: a newline-terminated line at the head of a
    buffer that does not start with the marker is decoded with
    [errors='ignore'].  Decoding always returns a text, the text holds
    exactly the code points of the well-formed sequences (malformed bytes
    are dropped), no replacement character is introduced for them, and
    the iteration takes the line off the buffer without faulting. *)
Theorem debug_line_drops_invalid_bytes
    (buffer : list Z) (newline_idx : nat) :
  head buffer ≠ Some MAGIC_BYTE →
  bytes_find NEWLINE buffer = Some newline_idx →
  let line := take (newline_idx + 1) buffer in
  ∃ text,
    bytes_decode ignore line = Some text
    ∧ text = well_formed_chars (utf8_scan line)
    ∧ (REPLACEMENT_CHARACTER ∈ text → 0xEF ∈ line)
    ∧ loop_body host buffer
      = Unit (if strip text is [] then None
              else Some (DebugEvent (strip text)))
             (newline_idx + 1).
Proof.
  intros Hhead Hfind line. exists (well_formed_chars (utf8_scan line)).
  split; [apply bytes_decode_ignore|]. split; [done|]. split.
  - intros Hin%well_formed_chars_elem.
    by apply utf8_scan_replacement_origin.
  - unfold loop_body.
    destruct (Z.eqb_spec (nth 0 buffer 0) MAGIC_BYTE) as [Hm|_].
    { destruct buffer as [|x rest]; [done|]. simpl in Hm. by subst x. }
    rewrite Hfind. fold line. by rewrite bytes_decode_ignore.
Qed.

(** No pass of the loop ever leaves through the exception path. *)
Lemma drain_never_faults (fuel : nat) (buffer : list Z) :
  faulted (drain host fuel buffer) = false.
Proof.
  revert buffer. induction fuel as [|fuel IH]; intros buffer; [done|].
  cbn [drain]. destruct buffer as [|x rest]; [done|].
  destruct (loop_body host (x :: rest)) as [ev n| |n] eqn:Hbody;
    [apply IH | done |].
  exfalso. revert Hbody. unfold loop_body.
  destruct (_ =? MAGIC_BYTE); [by destruct (_ <? _)%nat|].
  destruct (bytes_find NEWLINE _); [|by destruct (_ <? _)%nat].
  by rewrite bytes_decode_ignore.
Qed.

End DebugLines.

Lemma debug_line_drops_invalid_bytes_witness :
  ∃ text,
    bytes_decode ignore [104; 0xFF; 105; 10] = Some text
    ∧ loop_body little [104; 0xFF; 105; 10; 0xAB]
      = Unit (if strip text is [] then None else Some (DebugEvent (strip text)))
             4.
Proof.
  destruct (debug_line_drops_invalid_bytes little [104; 0xFF; 105; 10; 0xAB] 3)
    as (text & Hdec & _ & _ & Hbody).
  - vm_compute. congruence.
  - reflexivity.
  - exists text. split; [exact Hdec | exact Hbody].
Defined.

(** C5, as the specification words it, fails: the invalid byte [0xFF] in
    the line ["h\xFFi\n"] is not replaced by U+FFFD, it disappears; the
    [replace] handler is the one that would have produced a replacement
    character. *)
Lemma invalid_byte_not_replaced :
  run_loop little [104; 0xFF; 105; 10]
  = Drained [DebugEvent [104; 105]] [] false false
  ∧ bytes_decode ignore [104; 0xFF; 105; 10] = Some [104; 105; 10]
  ∧ bytes_decode replace [104; 0xFF; 105; 10]
    = Some [104; REPLACEMENT_CHARACTER; 105; 10]
  ∧ REPLACEMENT_CHARACTER ∉ [104; 105; 10].
Proof.
  repeat split; try (vm_compute; reflexivity).
  unfold REPLACEMENT_CHARACTER. rewrite !not_elem_of_cons.
  repeat split; try lia. apply not_elem_of_nil.
Qed.

(** ** Chunked decoding *)

Section Chunking.

Variable host : byteorder.

Lemma prepend_nil (d : drained) : prepend [] d = d.
Proof. by destruct d. Qed.

(** Running the loop on [a ++ b] is running it on [a] and then, with what
    [a] left behind, on the bytes of [b] -- as long as the run on [a] did
    not cut the buffer. *)
Lemma run_loop_app (a b : list Z) :
  was_capped (run_loop host a) = false →
  run_loop host (a ++ b)
  = prepend (events (run_loop host a))
            (run_loop host (residue (run_loop host a) ++ b)).
Proof.
  induction a as [a IH] using list_length_ind.
  destruct a as [|x a]; [by rewrite prepend_nil|].
  rewrite <- app_comm_cons, !run_loop_cons, app_comm_cons.
  destruct (loop_body host (x :: a)) as [ev n|kept capped|n] eqn:Hbody.
  - rewrite (loop_body_Unit_app _ _ b _ _ Hbody).
    apply loop_body_Unit in Hbody. rewrite drop_app_le by lia.
    unfold emit. cbn [was_capped events residue]. intros Hcap.
    rewrite IH by (rewrite ?length_drop; simpl in *; lia || done).
    unfold prepend. cbn [was_capped events residue faulted].
    by rewrite (assoc_L (++)).
  - cbn [was_capped events residue]. intros ->.
    apply loop_body_Break_uncapped in Hbody as ->.
    by rewrite prepend_nil, <- app_comm_cons, run_loop_cons.
  - cbn [was_capped events residue].
    pose proof (drain_never_faults host (length (x :: a)) (x :: a)) as Hf.
    fold (run_loop host (x :: a)) in Hf. rewrite run_loop_cons, Hbody in Hf.
    done.
Qed.

(** What an uncut run leaves behind is at rest: running the loop on it
    again emits nothing and leaves it as it is. *)
Lemma residue_at_rest (a : list Z) :
  was_capped (run_loop host a) = false →
  run_loop host (residue (run_loop host a))
  = Drained [] (residue (run_loop host a)) false false.
Proof.
  intros Hcap. pose proof (run_loop_app a [] Hcap) as H.
  rewrite !app_nil_r in H.
  destruct (run_loop host a) as [evs r c f] eqn:Ha. simpl in *.
  destruct (run_loop host r) as [evs' r' c' f'] eqn:Hr.
  unfold prepend in H. simpl in H. injection H as H1 H2 H3 H4. subst.
  assert (evs' = []) as ->.
  { apply (f_equal length) in H1. rewrite length_app in H1.
    destruct evs'; [done | simpl in H1; lia]. }
  pose proof (drain_never_faults host (length r') r') as Hf.
  fold (run_loop host r') in Hf. rewrite Hr in Hf. simpl in Hf. by subst.
Qed.

Lemma feed_at_rest (r chunk : list Z) :
  run_loop host r = Drained [] r false false →
  feed host r chunk = run_loop host (r ++ chunk).
Proof.
  intros Hr. destruct chunk; [|done]. by rewrite app_nil_r, Hr.
Qed.

Lemma feed_all_at_rest (buffer : list Z) (chunks : list (list Z)) :
  run_loop host buffer = Drained [] buffer false false →
  was_capped (feed_all host buffer chunks) = false →
  events (feed_all host buffer chunks)
  = events (feed host buffer (concat chunks))
  ∧ residue (feed_all host buffer chunks)
    = residue (feed host buffer (concat chunks)).
Proof.
  revert buffer. induction chunks as [|chunk later IH]; intros buffer Hrest;
    [intros _; by split|].
  cbn [feed_all concat was_capped events residue].
  intros [Hcap1 Hcap2]%orb_false_iff.
  rewrite !feed_at_rest in * by done.
  rewrite (assoc_L (++)), (run_loop_app (buffer ++ chunk) (concat later) Hcap1).
  cbn [prepend events residue].
  pose proof (residue_at_rest _ Hcap1) as Hrest'.
  destruct (IH _ Hrest' Hcap2) as [-> ->].
  by rewrite feed_at_rest.
Qed.

(** C1, as the code has it: as long as the 2048-byte cap is not applied
    during the chunk-by-chunk run, feeding the chunks one at a time yields
    the same status and debug events, in the same order, as feeding their
    concatenation in one read (and leaves the same bytes buffered). *)
Theorem chunked_decoding_agrees (chunks : list (list Z)) :
  was_capped (feed_all host [] chunks) = false →
  events (feed_all host [] chunks) = events (feed host [] (concat chunks))
  ∧ residue (feed_all host [] chunks)
    = residue (feed host [] (concat chunks)).
Proof. by apply feed_all_at_rest. Qed.

(** The cap needs more than 2048 buffered bytes, and the loop never leaves
    more bytes than it was given. *)
Lemma run_loop_capped_long (a : list Z) :
  was_capped (run_loop host a) = true → (2048 < length a)%nat.
Proof.
  induction a as [a IH] using list_length_ind.
  destruct a as [|x a]; [done|]. rewrite run_loop_cons.
  destruct (loop_body host (x :: a)) as [ev n|kept capped|n] eqn:Hbody;
    [| |done].
  - apply loop_body_Unit in Hbody. unfold emit. cbn [was_capped].
    intros Hcap. apply IH in Hcap; rewrite length_drop in *; simpl in *; lia.
  - cbn [was_capped]. intros ->. revert Hbody. unfold loop_body.
    destruct (_ =? MAGIC_BYTE); [by destruct (_ <? _)%nat|].
    destruct (bytes_find NEWLINE _); [by destruct (bytes_decode ignore _)|].
    by destruct (Nat.ltb_spec 2048 (length (x :: a))).
Qed.

Lemma run_loop_residue_length (a : list Z) :
  (length (residue (run_loop host a)) ≤ length a)%nat.
Proof.
  induction a as [a IH] using list_length_ind.
  destruct a as [|x a]; [done|]. rewrite run_loop_cons.
  destruct (loop_body host (x :: a)) as [ev n|kept capped|n] eqn:Hbody.
  - apply loop_body_Unit in Hbody. unfold emit. cbn [residue].
    etrans; [apply IH|]; rewrite length_drop; simpl in *; lia.
  - cbn [residue]. revert Hbody. unfold loop_body.
    destruct (_ =? MAGIC_BYTE).
    + destruct (_ <? _)%nat; [|done]. by intros [= <- _].
    + destruct (bytes_find NEWLINE _); [by destruct (bytes_decode ignore _)|].
      destruct (_ <? _)%nat; intros [= <- _]; [|done].
      rewrite length_drop. lia.
  - cbn [residue]. rewrite length_drop. lia.
Qed.

Lemma feed_all_short_uncapped (buffer : list Z) (chunks : list (list Z)) :
  (length buffer + length (concat chunks) ≤ 2048)%nat →
  was_capped (feed_all host buffer chunks) = false.
Proof.
  revert buffer. induction chunks as [|chunk later IH]; intros buffer; [done|].
  cbn [concat feed_all was_capped]. rewrite length_app. intros Hlen.
  assert (was_capped (feed host buffer chunk) = false
          ∧ (length (residue (feed host buffer chunk))
             ≤ length buffer + length chunk)%nat) as [-> Hres].
  { destruct chunk as [|c chunk]; [simpl; split; [done | lia]|].
    unfold feed. split.
    - destruct (was_capped _) eqn:Hcap; [|done].
      apply run_loop_capped_long in Hcap. rewrite length_app in Hcap. lia.
    - etrans; [apply run_loop_residue_length|]. by rewrite length_app. }
  apply IH. lia.
Qed.

(** In particular chunking never matters for an input of at most 2048
    bytes. *)
Corollary chunked_decoding_agrees_short (chunks : list (list Z)) :
  (length (concat chunks) ≤ 2048)%nat →
  events (feed_all host [] chunks) = events (feed host [] (concat chunks)).
Proof.
  intros Hlen. apply feed_all_at_rest; [done|].
  by apply feed_all_short_uncapped.
Qed.

End Chunking.

Lemma chunked_decoding_agrees_witness :
  events (feed_all little []
            [[104; 105]; [10; 0xAB; 192]; []; [168; 1; 42; 10; 111]; [107; 10; 0xAB]])
  = [DebugEvent [104; 105];
     StatusEvent "192.168.1.42" 10 "WIFI_CONNECT_SUCCESS";
     DebugEvent [111; 107]].
Proof.
  destruct (chunked_decoding_agrees little
              [[104; 105]; [10; 0xAB; 192]; []; [168; 1; 42; 10; 111];
               [107; 10; 0xAB]]) as [E _].
  - vm_compute. reflexivity.
  - rewrite E. vm_compute. reflexivity.
Defined.

(** C1, as the specification words it, fails: 2049 bytes of text followed
    in the next read by the newline give a debug event with only the last
    256 characters, while the same 2050 bytes read at once give the whole
    line. *)
Lemma chunked_decoding_differs_when_capped :
  events (feed_all little [] [replicate 2049 97; [10]])
  = [DebugEvent (replicate 256 97)]
  ∧ events (feed little [] (concat [replicate 2049 97; [10]]))
    = [DebugEvent (replicate 2049 97)]
  ∧ events (feed_all little [] [replicate 2049 97; [10]])
    ≠ events (feed little [] (concat [replicate 2049 97; [10]])).
Proof.
  assert (events (feed_all little [] [replicate 2049 97; [10]])
          = [DebugEvent (replicate 256 97)]) as E1
    by (vm_compute; reflexivity).
  assert (events (feed little [] (concat [replicate 2049 97; [10]]))
          = [DebugEvent (replicate 2049 97)]) as E2
    by (vm_compute; reflexivity).
  rewrite E1, E2. repeat split.
  intros H.
  apply (f_equal (fun evs => match evs with
                             | [DebugEvent text] => length text
                             | _ => O
                             end)) in H.
  rewrite !length_replicate in H. lia.
Qed.

(** ** Waiter registry *)

Lemma count_fresh (e : nat) (l : list nat) :
  e ∉ l → length (filter (fun x => x = e) l) = 0%nat.
Proof.
  induction l as [|x l IH]; [done|]. rewrite not_elem_of_cons.
  intros [Hne Hin]. rewrite filter_cons_False by congruence. by apply IH.
Qed.

Lemma count_NoDup (e : nat) (l : list nat) :
  NoDup l → e ∈ l → length (filter (fun x => x = e) l) = 1%nat.
Proof.
  induction 1 as [|x l Hx Hnd IH]; [by intros ?%elem_of_nil|].
  intros [->|Hin]%elem_of_cons.
  - rewrite filter_cons_True by done. simpl. by rewrite count_fresh.
  - rewrite filter_cons_False by (intros ->; done). by apply IH.
Qed.

(** Removing from [l] the members of [filter P l0], for [l] within [l0],
    is filtering [l] by the complement of [P]. *)
Lemma filter_out_filtered {A} `{EqDecision A} (P : A → Prop)
    `{!∀ x, Decision (P x)} (l0 l : list A) :
  l ⊆ l0 →
  filter (fun x => x ∉ filter P l0) l = filter (fun x => ¬ P x) l.
Proof.
  induction l as [|x l IH]; [done|]. intros Hsub.
  assert (x ∈ l0) as Hx by (apply Hsub, list_elem_of_here).
  assert (l ⊆ l0) as Hl by (intros y Hy; apply Hsub; by right).
  rewrite !filter_cons, IH by done.
  destruct (decide (¬ P x)) as [Hout|Hin].
  - rewrite decide_True; [done|]. rewrite list_elem_of_filter. tauto.
  - rewrite decide_False; [done|]. rewrite list_elem_of_filter.
    destruct (decide (P x)); tauto.
Qed.

Lemma Forall_filter_keep {A} (P Q : A → Prop) `{!∀ x, Decision (Q x)}
    (l : list A) :
  Forall P l → Forall P (filter Q l).
Proof.
  rewrite !Forall_forall. intros Hall x [_ Hx]%list_elem_of_filter. auto.
Qed.

Section Registry.

Implicit Types (r : registry) (w : waiter) (name : string).

(** The waiters [notify] keeps are those whose status set does not hold
    the name. *)
Lemma notify_kept name r :
  status_waiters (notify_status_waiters name r)
  = filter (fun w => name ∉ statuses w) (status_waiters r).
Proof.
  unfold notify_status_waiters. cbn [status_waiters].
  by apply (filter_out_filtered (fun w => name ∈ statuses w)).
Qed.

Lemma notify_set_calls name r :
  set_calls (notify_status_waiters name r)
  = set_calls r
    ++ (event <$> filter (fun w => name ∈ statuses w) (status_waiters r)).
Proof. done. Qed.

Lemma registry_eq r r' :
  status_waiters r = status_waiters r' → next_event r = next_event r' →
  set_calls r = set_calls r' → r = r'.
Proof. destruct r, r'. simpl. congruence. Qed.

(** A second [notify] with the same name finds nothing left to fire. *)
Lemma notify_twice name r :
  notify_status_waiters name (notify_status_waiters name r)
  = notify_status_waiters name r.
Proof.
  apply registry_eq.
  - rewrite !notify_kept, list_filter_filter. apply list_filter_iff. tauto.
  - done.
  - rewrite (notify_set_calls name (notify_status_waiters name r)).
    rewrite notify_kept, list_filter_filter.
    replace (filter _ (status_waiters r)) with (@nil waiter);
      [by rewrite app_nil_r|].
    induction (status_waiters r) as [|w l IH]; [done|].
    by rewrite filter_cons_False by tauto.
Qed.

Lemma registry_wf_empty : registry_wf empty_registry.
Proof. repeat split; constructor. Qed.

Lemma registry_wf_register names r :
  registry_wf r → registry_wf (snd (register_status_waiter names r)).
Proof.
  intros (Hlt & Hnd & Hsc). unfold registry_wf. cbn.
  rewrite Forall_app, fmap_app, NoDup_app. repeat split.
  - eapply Forall_impl; [exact Hlt|]. simpl. lia.
  - apply Forall_singleton. simpl. lia.
  - done.
  - intros e H1 H2. apply list_elem_of_fmap in H1 as (w & Heq & Hw).
    apply list_elem_of_singleton in H2. simpl in H2.
    rewrite Forall_forall in Hlt. apply Hlt in Hw. lia.
  - apply NoDup_singleton.
  - eapply Forall_impl; [exact Hsc|]. simpl. lia.
Qed.

Lemma registry_wf_notify name r :
  registry_wf r → registry_wf (notify_status_waiters name r).
Proof.
  intros (Hlt & Hnd & Hsc). unfold registry_wf.
  rewrite notify_kept, notify_set_calls. cbn [next_event notify_status_waiters].
  repeat split.
  - by apply Forall_filter_keep.
  - eapply sublist_NoDup; [exact Hnd|]. apply fmap_sublist, sublist_filter.
  - rewrite Forall_app. split; [done|]. rewrite Forall_fmap.
    by apply Forall_filter_keep.
Qed.

Lemma registry_wf_unregister e r :
  registry_wf r → registry_wf (unregister_status_waiter e r).
Proof.
  intros (Hlt & Hnd & Hsc). unfold registry_wf. cbn. repeat split.
  - by apply Forall_filter_keep.
  - eapply sublist_NoDup; [exact Hnd|]. apply fmap_sublist, sublist_filter.
  - done.
Qed.

Lemma waiter_of_event (l : list waiter) w w' :
  NoDup (event <$> l) → w ∈ l → w' ∈ l → event w = event w' → w = w'.
Proof.
  induction l as [|x l IH]; [by intros _ ?%elem_of_nil|].
  rewrite fmap_cons, NoDup_cons, !elem_of_cons.
  intros [Hx Hnd] [Hw|Hw] [Hw'|Hw'] Heq; subst; try done.
  - destruct Hx. apply list_elem_of_fmap.
    eexists. split; [|eassumption]. congruence.
  - destruct Hx. apply list_elem_of_fmap.
    eexists. split; [|eassumption]. congruence.
  - by apply IH.
Qed.

(** A registered waiter interested in [name] is fired exactly once by
    [notify name]. *)
Lemma notify_fires name r w :
  registry_wf r → w ∈ status_waiters r → name ∈ statuses w →
  set_count (notify_status_waiters name r) (event w)
  = S (set_count r (event w)).
Proof.
  intros (_ & Hnd & _) Hw Hin. unfold set_count.
  rewrite notify_set_calls, filter_app, length_app.
  rewrite (count_NoDup (event w) (event <$> _)); [lia | |].
  - eapply sublist_NoDup; [exact Hnd|]. apply fmap_sublist, sublist_filter.
  - apply list_elem_of_fmap. exists w. split; [done|].
    by apply list_elem_of_filter.
Qed.

(** C3: register a waiter for the names [names] and notify one of them.
    The waiter's event, never set before, is set exactly once and the
    waiter is gone from the registry; notifying the same name again
    changes nothing, so the event is not set a second time.  Every
    registered waiter that does not list the name stays registered, and
    every registered waiter that lists it is removed and has its event set
    once by that same notify. *)
Theorem notify_fires_once r (names : list string) name :
  registry_wf r → name ∈ names →
  let e := fst (register_status_waiter names r) in
  let r1 := snd (register_status_waiter names r) in
  let r2 := notify_status_waiters name r1 in
  let r3 := notify_status_waiters name r2 in
  set_count r1 e = 0%nat
  ∧ set_count r2 e = 1%nat
  ∧ (e ∉ (event <$> status_waiters r2))
  ∧ r3 = r2
  ∧ set_count r3 e = 1%nat
  ∧ (∀ w, w ∈ status_waiters r1 → name ∉ statuses w →
          w ∈ status_waiters r2)
  ∧ (∀ w, w ∈ status_waiters r1 → name ∈ statuses w →
          (w ∉ status_waiters r2)
          ∧ set_count r2 (event w) = S (set_count r1 (event w))).
Proof.
  intros Hwf Hname e r1 r2 r3.
  pose proof (registry_wf_register names r Hwf) as Hwf1. fold r1 in Hwf1.
  set (mine := Waiter (list_to_set names) (next_event r)).
  assert (mine ∈ status_waiters r1) as Hmine.
  { unfold r1. cbn. apply elem_of_app. right. apply list_elem_of_here. }
  assert (name ∈ statuses mine) as Hlisted.
  { simpl. by apply elem_of_list_to_set. }
  assert (set_count r1 e = 0%nat) as H0.
  { destruct Hwf as (_ & _ & Hsc). unfold set_count, r1, e. cbn.
    apply count_fresh. intros Hin. rewrite Forall_forall in Hsc.
    apply Hsc in Hin. lia. }
  assert (set_count r2 e = 1%nat) as H1.
  { unfold r2. change e with (event mine).
    rewrite notify_fires by done. change (event mine) with e. by rewrite H0. }
  assert (r3 = r2) as H3 by apply notify_twice.
  repeat split; try done.
  - unfold r2. rewrite notify_kept.
    intros (w & He & [Hout Hw]%list_elem_of_filter)%list_elem_of_fmap.
    destruct Hwf1 as (_ & Hnd & _).
    assert (w = mine) as ->; [|done].
    by apply (waiter_of_event (status_waiters r1)).
  - by rewrite H3.
  - intros w Hw Hout. unfold r2. rewrite notify_kept.
    by apply list_elem_of_filter.
  - unfold r2. rewrite notify_kept. rewrite list_elem_of_filter. tauto.
  - by apply notify_fires.
Qed.

End Registry.

Lemma notify_fires_once_witness :
  let r := snd (register_status_waiter ["Y"] empty_registry) in
  let r1 := snd (register_status_waiter ["X"; "Z"] r) in
  let r2 := notify_status_waiters "X" r1 in
  set_count r1 1 = 0%nat ∧ set_count r2 1 = 1%nat
  ∧ notify_status_waiters "X" r2 = r2
  ∧ (event <$> status_waiters r2) = [0%nat].
Proof.
  intros r r1 r2.
  assert (registry_wf r) as Hwf
    by apply registry_wf_register, registry_wf_empty.
  assert ("X" ∈ ["X"; "Z"]) as Hin by apply list_elem_of_here.
  pose proof (notify_fires_once r ["X"; "Z"] "X" Hwf Hin) as H.
  cbv zeta in H. destruct H as (H0 & H1 & _ & H3 & _).
  split; [exact H0|]. split; [exact H1|]. split; [exact H3|].
  vm_compute. reflexivity.
Defined.

(** ** Status dispatcher *)

(** A report with the all-zero address and status 16 is the bare
    [DEVICE_READY] event, whatever the byte order of the host. *)
Lemma device_ready_report (host : byteorder) :
  decode_report host [0; 0; 0; 0; 16]
  = StatusEvent "0.0.0.0" 16 "DEVICE_READY".
Proof. by destruct host. Qed.

(** C4, as the code has it: a [DEVICE_READY] event whose address is
    [0.0.0.0], handled while no waiter is registered, logs the ready
    message, sets the prompt event at once and then goes through the usual
    waiter notification. *)
Theorem device_ready_releases_idle_prompt (w : world) :
  status_waiters (waiters w) = [] →
  let w' := handle_event (StatusEvent "0.0.0.0" 16 "DEVICE_READY") w in
  prompt_ready (prompt w') = true
  ∧ w' = set_waiters
           (notify_status_waiters "DEVICE_READY" (waiters w))
           (release_prompt
              (log_message (str "ESP32 ready for commands.") INFO
                           (Some Fore_GREEN) w)).
Proof.
  intros Hidle. unfold handle_event, handle_status.
  change (STATUS_COLORS !! "DEVICE_READY") with (Some Fore_GREEN).
  cbn [Z.eqb Pos.eqb]. rewrite !bool_decide_eq_true_2 by done.
  rewrite bool_decide_eq_false_2 by done.
  rewrite bool_decide_eq_false_2 by done.
  cbn [log_message set_log waiters]. rewrite Hidle. cbn [length Nat.eqb].
  split; reflexivity.
Qed.

Lemma device_ready_releases_idle_prompt_witness :
  prompt_ready
    (prompt (handle_event (StatusEvent "0.0.0.0" 16 "DEVICE_READY")
                          (hold_prompt DEFAULT_PROMPT_DELAY initial_world)))
  = true.
Proof.
  apply (device_ready_releases_idle_prompt
           (hold_prompt DEFAULT_PROMPT_DELAY initial_world)).
  reflexivity.
Defined.

(** C4, as the specification words it, fails: a [DEVICE_READY] report that
    carries a non-zero address takes the target branch of the dispatcher,
    which only logs; with no waiter registered the held prompt stays
    held. *)
Lemma device_ready_with_address_keeps_prompt :
  let w := hold_prompt DEFAULT_PROMPT_DELAY initial_world in
  status_waiters (waiters w) = []
  ∧ decode_report little [1; 0; 0; 0; 16]
    = StatusEvent "1.0.0.0" 16 "DEVICE_READY"
  ∧ prompt_ready
      (prompt (handle_event (StatusEvent "1.0.0.0" 16 "DEVICE_READY") w))
    = false
  ∧ prompt_ready
      (prompt (snd (serial_reader_step little [0xAB; 1; 0; 0; 0; 16] ([], w))))
    = false.
Proof. repeat split; vm_compute; reflexivity. Qed.

(** ** Command dispatcher *)

Lemma command_map_scan : command_map !! "scan" = Some cmd_scan.
Proof. reflexivity. Qed.

Lemma command_map_join : command_map !! "join" = Some cmd_join.
Proof. reflexivity. Qed.

Lemma delete_appended {A} (l : list A) (x : A) :
  delete (length l) (l ++ [x]) = l.
Proof. induction l as [|y l IH]; [done|]. simpl. f_equal. exact IH. Qed.

(** What a local error leaves behind: the port is untouched, one warning
    line is printed, and the prompt is held with the default delay. *)
Lemma local_error_effect (text : string) (w : world) :
  esp32_serial_port (local_error text w) = esp32_serial_port w
  ∧ transport_writes (local_error text w) = transport_writes w
  ∧ console (local_error text w) = console w ++ [warn text]
  ∧ prompt (local_error text w)
    = Gate false (timers (prompt w) ++ [DEFAULT_PROMPT_DELAY])
           (wait_threads (prompt w))
  ∧ prompt (timer_fires (length (timers (prompt w))) (local_error text w))
    = Gate true (timers (prompt w)) (wait_threads (prompt w)).
Proof.
  repeat split; try done. unfold timer_fires, local_error, hold_prompt.
  cbn [prompt set_prompt print set_console timers wait_threads].
  by rewrite delete_appended.
Qed.

(** C6: a [scan] or [join] line that fails validation ends in a local
    error.  The program prints one line on standard output, the text of
    the fault between the escape codes of light red and of reset, and does
    nothing else but hold the prompt with the default delay of 0.8 s:
    nothing is logged, nothing is written to the transport (the port is
    left as it was, open or not), no waiter is registered and the saved
    networks are untouched; the prompt event is cleared, one timer of
    0.8 s is started, and when that timer fires the prompt is ready
    again. *)
Theorem validation_fault_is_local
    (w : world) (tokens : list string) (text : string) :
  validation_fault w tokens text →
  let line := String "027"%char "[91m" +:+ text +:+ String "027"%char "[0m" in
  let w' := dispatch tokens w in
  w' = hold_prompt 0.8 (print line w)
  ∧ console w' = console w ++ [line]
  ∧ log w' = log w
  ∧ esp32_serial_port w' = esp32_serial_port w
  ∧ transport_writes w' = transport_writes w
  ∧ waiters w' = waiters w
  ∧ wifi_config_file w' = wifi_config_file w
  ∧ prompt w'
    = Gate false (timers (prompt w) ++ [0.8%Q]) (wait_threads (prompt w))
  ∧ prompt (timer_fires (length (timers (prompt w))) w')
    = Gate true (timers (prompt w)) (wait_threads (prompt w)).
Proof.
  intros Hfault line w'.
  assert (w' = local_error text w) as E.
  { unfold w'.
    destruct Hfault as [verb target others Hverb Hip | verb Hverb | verb Hverb
                       | verb args ssid password index Hverb Hparse Hsaved
                       | verb args ssid password index Hverb Hparse Hsaved Hrange
                       | verb args Hverb Hparse
                       | verb args Hverb Hparse
                       | verb args token Hverb Hparse
                       | verb args ssid password Hverb Hparse Hmiss];
      unfold dispatch; rewrite Hverb;
      rewrite ?command_map_scan, ?command_map_join; unfold settle.
    - unfold cmd_scan.
      change (one_of "-t" "-all" "--all") with false. cbn iota.
      rewrite bool_decide_eq_true_2 by done. by rewrite Hip.
    - done.
    - done.
    - unfold cmd_join. rewrite Hparse. unfold resolve_join.
      by rewrite Hsaved.
    - unfold cmd_join. rewrite Hparse. unfold resolve_join.
      rewrite length_fmap.
      destruct (wifi_config_file w) as [|entry saved]; [done|].
      cbn [fmap list_fmap].
      destruct (Z.leb_spec 0 index); [|done].
      destruct (Z.ltb_spec index (Z.of_nat (length (entry :: saved))));
        [lia | done].
    - unfold cmd_join. by rewrite Hparse.
    - unfold cmd_join. by rewrite Hparse.
    - unfold cmd_join. by rewrite Hparse.
    - unfold cmd_join. rewrite Hparse. unfold resolve_join.
      destruct ssid as [ssid|], password as [password|]; try done.
      destruct Hmiss as [[|[= ->]]|[|[= ->]]]; try done.
      by rewrite (bool_decide_eq_true_2 ("" = "")), andb_false_r. }
  assert (local_error text w = hold_prompt 0.8 (print line w)) as E'
    by reflexivity.
  rewrite E. split; [exact E'|].
  destruct (local_error_effect text w) as (Hport & Hwrites & Hconsole & Hgate & Hfire).
  repeat split; try assumption; reflexivity.
Qed.

Lemma validation_fault_is_local_witness :
  transport_writes (dispatch ["join"; "-i"; "7"] connected_world)
  = ["reboot" +:+ NL]
  ∧ console (dispatch ["join"; "-i"; "7"] connected_world)
    = [String "027"%char "[91m" +:+ "Error: Index out of bounds."
       +:+ String "027"%char "[0m"]
  ∧ prompt (dispatch ["join"; "-i"; "7"] connected_world)
    = Gate false [0.8%Q] [].
Proof.
  destruct (validation_fault_is_local connected_world ["join"; "-i"; "7"]
              "Error: Index out of bounds.")
    as (_ & Hconsole & _ & _ & Hwrites & _ & _ & Hgate & _).
  - apply (join_index_out_of_range _ "join" ["-i"; "7"] None None 7);
      [reflexivity | reflexivity | discriminate | simpl; lia].
  - split; [exact Hwrites|]. split; [exact Hconsole | exact Hgate].
Defined.

(** The two examples of the specification. *)
Example join_index_on_empty_store (w : world) :
  wifi_config_file w = [] →
  dispatch ["join"; "-i"; "0"] w
  = local_error "No saved networks available." w.
Proof.
  intros Hsaved. unfold dispatch.
  change (lower "join") with "join". rewrite command_map_join.
  unfold settle, cmd_join. cbn [parse_join_options].
  change (one_of "-i" "-i" "--index") with true. cbn iota.
  change (py_int "0") with (Some 0). cbn iota.
  unfold resolve_join. by rewrite Hsaved.
Qed.

Example scan_rejects_bad_address (w : world) :
  dispatch ["scan"; "-t"; "999.999.999.999"] w
  = local_error "Error: Invalid IPv4 address." w.
Proof. reflexivity. Qed.

Lemma char_lower_upper (c : ascii) :
  char_lower (ascii_upper c) = char_lower c.
Proof. destruct c as [[] [] [] [] [] [] [] []]; reflexivity. Qed.

Lemma char_lower_lower (c : ascii) :
  char_lower (char_lower c) = char_lower c.
Proof. destruct c as [[] [] [] [] [] [] [] []]; reflexivity. Qed.

Lemma lower_lower (s : string) : lower (lower s) = lower s.
Proof.
  induction s as [|c s IH]; [done|]. cbn [lower].
  by rewrite char_lower_lower, IH.
Qed.

Lemma lower_capitalized (mask : list bool) (s : string) :
  lower (capitalized mask s) = lower s.
Proof.
  revert mask. induction s as [|c s IH]; intros [|[] mask]; try done.
  - cbn [capitalized lower]. by rewrite char_lower_upper, IH.
  - cbn [capitalized lower]. by rewrite IH.
Qed.

(** Every key of the command table is in lower case. *)
Lemma command_map_keys_lower (known : string) (run : handler) :
  command_map !! known = Some run → lower known = known.
Proof.
  intros Hrun. apply elem_of_list_to_map_2 in Hrun.
  repeat (apply elem_of_cons in Hrun as [[= -> _]|Hrun]; [reflexivity|]).
  by apply elem_of_nil in Hrun.
Qed.

(** C10: the verb is looked up in lower case and nothing else of the line
    is touched.  Any line is dispatched like the line with its first token
    in lower case; and for a verb of the command table, however its letters
    are capitalized, the handler registered under the lower-case verb runs
    on exactly the argument tokens that were typed. *)
Theorem verb_lookup_ignores_case
    (known : string) (run : handler) (mask : list bool)
    (args : list string) (w : world) :
  command_map !! known = Some run →
  dispatch (capitalized mask known :: args) w = dispatch (known :: args) w
  ∧ dispatch (capitalized mask known :: args) w = settle known (run args w)
  ∧ ∀ verb, dispatch (verb :: args) w = dispatch (lower verb :: args) w.
Proof.
  intros Hrun. pose proof (command_map_keys_lower _ _ Hrun) as Hlow.
  assert (dispatch (capitalized mask known :: args) w
          = settle known (run args w)) as E.
  { unfold dispatch, handler in *. by rewrite lower_capitalized, Hlow, Hrun. }
  split; [|split; [exact E|]].
  - rewrite E. unfold dispatch, handler in *. by rewrite Hlow, Hrun.
  - intros verb. unfold dispatch. by rewrite lower_lower.
Qed.

Lemma verb_lookup_ignores_case_witness :
  dispatch ["SCAN"; "-t"; "192.168.1.7"] initial_world
  = dispatch ["scan"; "-t"; "192.168.1.7"] initial_world
  ∧ dispatch ["SCAN"; "-t"; "192.168.1.7"] initial_world
    = settle "scan" (cmd_scan ["-t"; "192.168.1.7"] initial_world).
Proof.
  destruct (verb_lookup_ignores_case "scan" cmd_scan [true; true; true; true]
              ["-t"; "192.168.1.7"] initial_world) as (E1 & E2 & _).
  - reflexivity.
  - split; [exact E1 | exact E2].
Defined.

(** Only the verb is folded: an option typed in upper case reaches the
    handler as typed and is not recognised. *)
Example arguments_keep_their_case (w : world) :
  dispatch ["Scan"; "-ALL"] w = local_error scan_usage w
  ∧ dispatch ["JOIN"; "-S"; "net"; "-p"; "pw"] w
    = local_error "Unknown option: -S" w.
Proof. split; reflexivity. Qed.

(** * Further properties *)

(** ** Waiter registry: sequences of operations *)

Section RegistryRuns.

Implicit Types (r : registry) (w : waiter) (name : string).

Lemma fired_once_register names r :
  registry_wf r → fired_once r →
  fired_once (snd (register_status_waiter names r)).
Proof.
  intros (_ & _ & Hsc) [Hnd Hfresh]. split; [done|]. cbn.
  intros w [Hw|Hw%list_elem_of_singleton]%elem_of_app; [by apply Hfresh|].
  subst w. cbn. intros Hin. rewrite Forall_forall in Hsc.
  apply Hsc in Hin. lia.
Qed.

Lemma fired_once_unregister e r :
  fired_once r → fired_once (unregister_status_waiter e r).
Proof.
  intros [Hnd Hfresh]. split; [done|]. cbn.
  intros w [_ Hw]%list_elem_of_filter. by apply Hfresh.
Qed.

Lemma fired_once_notify name r :
  registry_wf r → fired_once r →
  fired_once (notify_status_waiters name r).
Proof.
  intros (_ & Hev & _) [Hnd Hfresh]. split.
  - rewrite notify_set_calls. apply NoDup_app. split; [done|]. split.
    + intros e He (w & -> & [_ Hw]%list_elem_of_filter)%list_elem_of_fmap.
      by apply (Hfresh w).
    + eapply sublist_NoDup; [exact Hev|]. apply fmap_sublist, sublist_filter.
  - rewrite notify_kept, notify_set_calls.
    intros w [Hout Hw]%list_elem_of_filter [Hin|Hin]%elem_of_app.
    + by apply (Hfresh w).
    + apply list_elem_of_fmap in Hin as (w' & Heq & [Hlisted Hw']%list_elem_of_filter).
      assert (w = w') as -> by (by apply (waiter_of_event (status_waiters r))).
      done.
Qed.

Lemma run_ops_invariant (ops : list registry_op) :
  registry_wf (run_ops ops) ∧ fired_once (run_ops ops).
Proof.
  unfold run_ops. induction ops as [|op ops IH] using rev_ind.
  - split; [apply registry_wf_empty|]. split; [constructor|].
    by intros w ?%elem_of_nil.
  - rewrite foldl_app. cbn [foldl]. destruct IH as [Hwf Hfired].
    destruct op as [names|e|name]; cbn [apply_op].
    + split; [by apply registry_wf_register | by apply fired_once_register].
    + split; [by apply registry_wf_unregister | by apply fired_once_unregister].
    + split; [by apply registry_wf_notify | by apply fired_once_notify].
Qed.

(** X1: whatever registrations, removals and notifications the controller
    has made since it started, no waiter's event has been set more than
    once, a waiter that is still registered has not been fired, and no two
    registered waiters share an event. *)
Theorem waiters_fire_at_most_once (ops : list registry_op) (e : nat) :
  (set_count (run_ops ops) e ≤ 1)%nat
  ∧ (∀ w, w ∈ status_waiters (run_ops ops) →
          set_count (run_ops ops) (event w) = 0%nat)
  ∧ NoDup (event <$> status_waiters (run_ops ops)).
Proof.
  destruct (run_ops_invariant ops) as [(_ & Hev & _) [Hnd Hfresh]].
  repeat split; [| |done].
  - unfold set_count. destruct (decide (e ∈ set_calls (run_ops ops))).
    + by rewrite count_NoDup.
    + rewrite count_fresh by done. lia.
  - intros w Hw. apply count_fresh. by apply Hfresh.
Qed.

(** X2: unregistering is idempotent, it removes exactly the waiters that
    hold the event and keeps the others, and a notification that comes
    after it no longer sets that event. *)
Theorem unregister_drops_late_notify (e : nat) r name :
  unregister_status_waiter e (unregister_status_waiter e r)
  = unregister_status_waiter e r
  ∧ (∀ w, w ∈ status_waiters (unregister_status_waiter e r)
          ↔ w ∈ status_waiters r ∧ event w ≠ e)
  ∧ set_count (notify_status_waiters name (unregister_status_waiter e r)) e
    = set_count r e.
Proof.
  split; [|split].
  - unfold unregister_status_waiter. cbn. f_equal.
    rewrite list_filter_filter. apply list_filter_iff. tauto.
  - intros w. cbn. rewrite list_elem_of_filter. tauto.
  - unfold set_count. rewrite notify_set_calls, filter_app, length_app.
    rewrite (count_fresh e (event <$> _)); [cbn; lia|].
    intros (w & -> & [_ [Hne _]%list_elem_of_filter]%list_elem_of_filter)
             %list_elem_of_fmap.
    done.
Qed.

(** X3: a notification for a name that no registered waiter lists leaves
    the registry exactly as it was: nobody is removed and no event is
    set. *)
Theorem notify_unlisted_name r name :
  (∀ w, w ∈ status_waiters r → name ∉ statuses w) →
  notify_status_waiters name r = r.
Proof.
  intros Hnone. apply registry_eq; [| done |].
  - rewrite notify_kept. induction (status_waiters r) as [|w l IH]; [done|].
    rewrite filter_cons_True by (apply Hnone; left).
    f_equal. apply IH. intros w' Hw'. apply Hnone. by right.
  - rewrite notify_set_calls.
    replace (filter _ (status_waiters r)) with (@nil waiter);
      [by rewrite app_nil_r|].
    induction (status_waiters r) as [|w l IH]; [done|].
    rewrite filter_cons_False by (intros ?; by apply (Hnone w); [left|]).
    apply IH. intros w' Hw'. apply Hnone. by right.
Qed.

End RegistryRuns.

Lemma notify_unlisted_name_witness :
  let r := snd (register_status_waiter ["SCAN_CYCLE_END"] empty_registry) in
  notify_status_waiters "PORT_OPEN" r = r.
Proof.
  intros r. apply (notify_unlisted_name r "PORT_OPEN").
  intros w Hw. apply list_elem_of_singleton in Hw. subst w.
  apply (bool_decide_unpack _). vm_compute. exact I.
Defined.

(** ** Frame decoder: bounds and composition *)

Section DecoderRuns.

Variable host : byteorder.

Lemma loop_body_no_fault (buffer : list Z) (n : nat) :
  loop_body host buffer ≠ Fault n.
Proof.
  unfold loop_body. destruct (_ =? MAGIC_BYTE); [by destruct (_ <? _)%nat|].
  destruct (bytes_find NEWLINE _); [|by destruct (_ <? _)%nat].
  by rewrite bytes_decode_ignore.
Qed.

Lemma loop_body_Break_kept (buffer kept : list Z) (capped : bool) :
  loop_body host buffer = Break kept capped →
  (length kept ≤ 2048)%nat ∧ ∃ dropped, buffer = dropped ++ kept.
Proof.
  unfold loop_body. destruct (_ =? MAGIC_BYTE).
  - destruct (Nat.ltb_spec (length buffer) (1 + report_size)); [|done].
    intros [= <- _]. unfold report_size in *. split; [lia|]. by exists [].
  - destruct (bytes_find NEWLINE _); [by destruct (bytes_decode ignore _)|].
    destruct (Nat.ltb_spec 2048 (length buffer)); intros [= <- _].
    + split; [rewrite length_drop; lia|].
      exists (take (length buffer - 256) buffer). by rewrite take_drop.
    + split; [lia|]. by exists [].
Qed.

Lemma run_loop_residue (a : list Z) :
  (length (residue (run_loop host a)) ≤ 2048)%nat
  ∧ ∃ consumed, a = consumed ++ residue (run_loop host a).
Proof.
  induction a as [a IH] using list_length_ind.
  destruct a as [|x a]; [split; [simpl; lia | by exists []]|].
  rewrite run_loop_cons.
  destruct (loop_body host (x :: a)) as [ev n|kept capped|n] eqn:Hbody.
  - apply loop_body_Unit in Hbody. unfold emit. cbn [residue].
    destruct (IH (drop n (x :: a))) as [Hlen [consumed Hc]].
    { rewrite length_drop. simpl in *. lia. }
    split; [done|]. exists (take n (x :: a) ++ consumed).
    by rewrite <- (assoc_L (++)), <- Hc, take_drop.
  - cbn [residue]. by apply loop_body_Break_kept in Hbody.
  - by apply loop_body_no_fault in Hbody.
Qed.

Lemma feed_residue (buffer chunk : list Z) :
  (length buffer ≤ 2048)%nat →
  (length (residue (feed host buffer chunk)) ≤ 2048)%nat
  ∧ ∃ consumed, buffer ++ chunk = consumed ++ residue (feed host buffer chunk).
Proof.
  intros Hlen. destruct chunk as [|c chunk].
  - cbn. split; [done|]. exists []. by rewrite app_nil_r.
  - unfold feed. apply run_loop_residue.
Qed.

Lemma feed_all_residue (buffer : list Z) (chunks : list (list Z)) :
  (length buffer ≤ 2048)%nat →
  (length (residue (feed_all host buffer chunks)) ≤ 2048)%nat
  ∧ ∃ consumed,
      buffer ++ concat chunks
      = consumed ++ residue (feed_all host buffer chunks).
Proof.
  revert buffer. induction chunks as [|chunk later IH]; intros buffer Hlen.
  - cbn. split; [done|]. exists []. by rewrite app_nil_r.
  - cbn [feed_all residue concat].
    destruct (feed_residue buffer chunk Hlen) as [Hlen' [c1 Hc1]].
    destruct (IH _ Hlen') as [Hlen'' [c2 Hc2]].
    split; [done|]. exists (c1 ++ c2).
    by rewrite (assoc_L (++)), Hc1, <- !(assoc_L (++)), Hc2.
Qed.

(** X4: however the stream is cut into reads and whatever it carries, the
    bytes left in the buffer after a read never exceed 2048, and they are
    always the tail end of what was received: the decoder drops or consumes
    bytes from the front only and never reorders or invents any. *)
Theorem buffer_stays_bounded (chunks : list (list Z)) :
  (length (residue (feed_all host [] chunks)) ≤ 2048)%nat
  ∧ ∃ consumed,
      concat chunks = consumed ++ residue (feed_all host [] chunks).
Proof. apply (feed_all_residue [] chunks). simpl. lia. Qed.

Lemma last_rev_head {A} (l : list A) : last (rev l) = head l.
Proof. destruct l as [|x l]; [done|]. cbn [rev]. by rewrite last_snoc. Qed.

Lemma head_rev_last {A} (l : list A) : head (rev l) = last l.
Proof. by rewrite <- (rev_involutive l) at 2; rewrite last_rev_head. Qed.

Lemma lstrip_head (s : pystr) (c : Z) :
  head (lstrip s) = Some c → isspace c = false.
Proof.
  induction s as [|x s IH]; [done|]. cbn [lstrip].
  destruct (isspace x) eqn:Hx; [done|]. by intros [= <-].
Qed.

Lemma lstrip_suffix (s : pystr) : ∃ spaces, s = spaces ++ lstrip s.
Proof.
  induction s as [|x s [spaces IH]]; [by exists []|]. cbn [lstrip].
  destruct (isspace x); [|by exists []].
  exists (x :: spaces). by rewrite <- app_comm_cons, <- IH.
Qed.

Lemma lstrip_id (s : pystr) :
  (∀ c, head s = Some c → isspace c = false) → lstrip s = s.
Proof.
  destruct s as [|x s]; [done|]. intros Hx. cbn [lstrip].
  by rewrite (Hx x eq_refl).
Qed.

(** What [strip] returns has no blank at either end. *)
Lemma strip_ends (s : pystr) (c : Z) :
  head (strip s) = Some c ∨ last (strip s) = Some c → isspace c = false.
Proof.
  unfold strip, rstrip. set (y := lstrip s).
  rewrite head_rev_last, last_rev_head. intros [Hlast|Hhead].
  - destruct (lstrip_suffix (rev y)) as [spaces Hs].
    destruct (lstrip (rev y)) as [|z zs] eqn:Hz; [done|].
    assert (last (rev y) = Some c) as Hl.
    { rewrite Hs. rewrite last_app. by rewrite Hlast. }
    rewrite last_rev_head in Hl. by apply (lstrip_head s).
  - by apply (lstrip_head (rev y)).
Qed.

Lemma loop_body_debug (buffer : list Z) (msg : pystr) (n : nat) :
  loop_body host buffer = Unit (Some (DebugEvent msg)) n →
  msg ≠ [] ∧ ∃ text, msg = strip text.
Proof.
  unfold loop_body. destruct (_ =? MAGIC_BYTE).
  - by destruct (_ <? _)%nat.
  - destruct (bytes_find NEWLINE _); [|by destruct (_ <? _)%nat].
    destruct (bytes_decode ignore _) as [text|]; [|done].
    destruct (strip text) as [|c m] eqn:Hs; [done|].
    intros [= <- _]. split; [done|]. by exists text.
Qed.

Lemma run_loop_debug_events (a : list Z) (msg : pystr) :
  DebugEvent msg ∈ events (run_loop host a) →
  msg ≠ [] ∧ ∃ text, msg = strip text.
Proof.
  induction a as [a IH] using list_length_ind.
  destruct a as [|x a]; [by intros ?%elem_of_nil|].
  rewrite run_loop_cons.
  destruct (loop_body host (x :: a)) as [ev n|kept capped|n] eqn:Hbody;
    [|by intros ?%elem_of_nil..].
  unfold emit. cbn [events]. intros [Hin|Hin]%elem_of_app.
  - destruct ev as [ev|]; [|by apply elem_of_nil in Hin].
    apply list_elem_of_singleton in Hin. subst ev.
    by apply loop_body_debug in Hbody.
  - apply loop_body_Unit in Hbody. revert Hin. apply IH.
    rewrite length_drop. simpl in *. lia.
Qed.

Lemma feed_all_debug_events (buffer : list Z) (chunks : list (list Z))
    (msg : pystr) :
  DebugEvent msg ∈ events (feed_all host buffer chunks) →
  msg ≠ [] ∧ ∃ text, msg = strip text.
Proof.
  revert buffer. induction chunks as [|chunk later IH]; intros buffer;
    [by intros ?%elem_of_nil|].
  cbn [feed_all events]. intros [Hin|Hin]%elem_of_app; [|by apply IH in Hin].
  destruct chunk; [by apply elem_of_nil in Hin|].
  by apply run_loop_debug_events in Hin.
Qed.

(** X5: a debug event is never blank: the text of every debug event the
    reader produces, from any stream cut into reads in any way, is
    non-empty and has no whitespace at its start or at its end. *)
Theorem debug_events_are_trimmed (chunks : list (list Z)) (msg : pystr) :
  DebugEvent msg ∈ events (feed_all host [] chunks) →
  msg ≠ []
  ∧ (∀ c, head msg = Some c → isspace c = false)
  ∧ (∀ c, last msg = Some c → isspace c = false).
Proof.
  intros [Hne [text ->]]%feed_all_debug_events. split; [done|].
  split; intros c Hc; apply (strip_ends text c); tauto.
Qed.

Lemma utf8_scan_ascii (bs : list Z) :
  Forall (fun b => b < 0x80) bs → utf8_scan bs = Char <$> bs.
Proof.
  induction 1 as [|b bs Hb _ IH]; [done|]. cbn [utf8_scan].
  destruct (Z.ltb_spec b 0x80); [|lia]. by rewrite IH.
Qed.

Lemma well_formed_chars_Char (bs : list Z) :
  well_formed_chars (Char <$> bs) = bs.
Proof. induction bs as [|b bs IH]; [done|]. cbn. by f_equal. Qed.

Lemma bytes_find_first (needle : Z) (a rest : list Z) :
  needle ∉ a → bytes_find needle (a ++ needle :: rest) = Some (length a).
Proof.
  induction a as [|x a IH]; cbn.
  - by rewrite Z.eqb_refl.
  - rewrite not_elem_of_cons. intros [Hne Hin].
    destruct (Z.eqb_spec x needle); [congruence|]. by rewrite IH.
Qed.

Lemma printable_isspace (c : Z) :
  printable c → isspace c = bool_decide (c = 0x20).
Proof.
  unfold printable, isspace. intros Hc.
  repeat match goal with
         | |- context [?a <=? ?b] => destruct (Z.leb_spec a b); try lia
         | |- context [?a =? ?b] => destruct (Z.eqb_spec a b); try lia
         end;
    cbn; by rewrite ?bool_decide_eq_true_2, ?bool_decide_eq_false_2 by lia.
Qed.

Lemma strip_line (text : list Z) :
  well_formed_unit (Line text) → strip (text ++ [NEWLINE]) = text.
Proof.
  intros (Hne & Hpr & Hhead & Hlast). unfold strip, rstrip.
  assert (∀ c, c ∈ text → isspace c = bool_decide (c = 0x20)) as Hsp.
  { intros c Hc. apply printable_isspace. rewrite Forall_forall in Hpr. auto. }
  rewrite (lstrip_id (text ++ [NEWLINE])).
  - rewrite rev_app_distr. cbn [rev app lstrip].
    change (isspace NEWLINE) with true. cbn iota.
    rewrite lstrip_id; [apply rev_involutive|].
    intros c. rewrite head_rev_last. intros Hc.
    rewrite Hsp by (by apply last_Some_elem_of).
    apply bool_decide_eq_false_2. congruence.
  - destruct text as [|x text]; [done|]. cbn. intros c [= <-].
    rewrite Hsp by left. apply bool_decide_eq_false_2. cbn in Hhead. congruence.
Qed.

Lemma take_through {A} (a : list A) (x : A) (rest : list A) :
  take (length a + 1) (a ++ x :: rest) = a ++ [x].
Proof. induction a as [|y a IH]; [done|]. cbn. by rewrite IH. Qed.

Lemma drop_through {A} (a : list A) (x : A) (rest : list A) :
  drop (length a + 1) (a ++ x :: rest) = rest.
Proof. induction a as [|y a IH]; [done|]. cbn. by rewrite IH. Qed.

Lemma run_loop_unit (u : wire_unit) (rest : list Z) :
  well_formed_unit u →
  run_loop host (on_wire u ++ rest)
  = prepend [decoded_as host u] (run_loop host rest).
Proof.
  destruct u as [payload|text]; cbn [on_wire decoded_as well_formed_unit].
  - intros Hlen. unfold frame. rewrite <- app_comm_cons, run_loop_cons.
    unfold loop_body. cbn [nth]. rewrite Z.eqb_refl.
    destruct (Nat.ltb_spec (length (MAGIC_BYTE :: payload ++ rest))
                           (1 + report_size)) as [Hlt|_].
    { cbn in Hlt. rewrite length_app in Hlt. unfold report_size in Hlt. lia. }
    unfold report_size. cbn [drop Nat.add]. rewrite drop_0.
    rewrite take_app_length' by done.
    change (drop 6 (MAGIC_BYTE :: payload ++ rest))
      with (drop 5 (payload ++ rest)).
    by rewrite drop_app_length' by done.
  - intros Hwf. pose proof Hwf as (Hne & Hpr & _ & _).
    destruct text as [|x text]; [done|].
    rewrite <- (assoc_L (++)). cbn [app]. rewrite run_loop_cons.
    change (x :: text ++ NEWLINE :: rest)
      with ((x :: text) ++ NEWLINE :: rest).
    set (line := x :: text) in *.
    assert (Forall (fun b => b < 0x80) (line ++ [NEWLINE])) as Hascii.
    { apply Forall_app. split; [|by repeat constructor].
      eapply Forall_impl; [exact Hpr|]. unfold printable. cbn. lia. }
    assert (NEWLINE ∉ line) as Hnl.
    { intros Hin. rewrite Forall_forall in Hpr. apply Hpr in Hin.
      unfold printable, NEWLINE in Hin. lia. }
    unfold loop_body.
    assert ((nth 0 (line ++ NEWLINE :: rest) 0 =? MAGIC_BYTE) = false) as ->.
    { subst line. cbn. apply Z.eqb_neq. apply Forall_cons_1 in Hpr as [Hx _].
      unfold printable, MAGIC_BYTE in *. lia. }
    rewrite bytes_find_first by done.
    rewrite take_through.
    rewrite bytes_decode_ignore, utf8_scan_ascii, well_formed_chars_Char by done.
    rewrite strip_line by done. subst line. cbn iota.
    by rewrite drop_through.
Qed.

(** X6: what the device sends comes out as sent.  A stream made of
    well-formed units -- status reports with any five payload bytes
    (newline and marker bytes included) and trimmed, printable text lines --
    decodes to exactly one event per unit, in order, and the loop then
    carries on with whatever follows. *)
Theorem stream_of_units_decodes (units : list wire_unit) (rest : list Z) :
  Forall well_formed_unit units →
  run_loop host (concat (on_wire <$> units) ++ rest)
  = prepend (decoded_as host <$> units) (run_loop host rest).
Proof.
  induction 1 as [|u units Hu _ IH]; [by rewrite prepend_nil|].
  cbn [fmap list_fmap concat]. rewrite <- (assoc_L (++)).
  rewrite run_loop_unit by done. rewrite IH.
  unfold prepend. cbn. done.
Qed.

End DecoderRuns.

Lemma debug_events_are_trimmed_witness :
  [104; 105] ≠ ([] : pystr)
  ∧ (∀ c, head [104; 105] = Some c → isspace c = false)
  ∧ (∀ c, last [104; 105] = Some c → isspace c = false).
Proof.
  apply (debug_events_are_trimmed little [[32; 104]; [105; 32; 10]]).
  vm_compute. apply list_elem_of_here.
Defined.

Lemma stream_of_units_decodes_witness :
  run_loop little
    (concat (on_wire <$> [Line [111; 107]; Report [192; 168; 1; 10; 2];
                          Report [10; 0xAB; 10; 0xAB; 6]]) ++ [0xAB; 1])
  = prepend
      (decoded_as little <$> [Line [111; 107]; Report [192; 168; 1; 10; 2];
                              Report [10; 0xAB; 10; 0xAB; 6]])
      (run_loop little [0xAB; 1]).
Proof.
  apply stream_of_units_decodes.
  repeat (apply Forall_cons_2; [|]); try apply Forall_nil_2; try reflexivity.
  cbn. repeat split; try congruence.
  repeat (apply Forall_cons_2; [unfold printable; lia|]). apply Forall_nil_2.
Defined.

(** ** Status dispatcher: what a report can and cannot do *)

(** The whole effect of [handle_status]: one log record, the waiter
    notification, and possibly the prompt event set. *)
Lemma handle_status_effect (ip_str : string) (status_code : Z)
    (status_str : string) (w : world) :
  ∃ (entry : log_record) (ready : bool),
    handle_status ip_str status_code status_str w
    = World (notify_status_waiters status_str (waiters w))
            (Gate ready (timers (prompt w)) (wait_threads (prompt w)))
            (stop_event w) (log w ++ [entry]) (console w)
            (esp32_serial_port w) (wifi_config_file w) (shell_calls w)
            (os_name w) (ipconfig_found w)
    ∧ (ready = prompt_ready (prompt w)
       ∨ ready = true ∧ ip_str = "0.0.0.0" ∧ status_str = "DEVICE_READY"
         ∧ status_waiters (waiters w) = []
         ∧ status_code ≠ 10 ∧ status_code ≠ 11 ∧ status_code ≠ 15)
    ∧ (level entry = WARNING
       ↔ status_code = 11
         ∨ status_code ≠ 10 ∧ status_code ≠ 15 ∧ ip_str ≠ "0.0.0.0"
           ∧ (status_str = "SERVICE_NO_RESPONSE"
              ∨ status_str = "TARGET_UNREACHABLE"))
    ∧ level entry ≠ ERROR.
Proof.
  destruct w as [r [rdy tm th] st lg co po wf sh os ip].
  unfold handle_status.
  repeat match goal with
         | |- context [?a =? ?b] => destruct (Z.eqb_spec a b)
         | |- context [bool_decide ?P] => destruct (bool_decide_reflect P)
         end;
    cbn [log_message set_log waiters prompt stop_event log console
         esp32_serial_port wifi_config_file shell_calls os_name ipconfig_found
         set_waiters release_prompt set_prompt timers wait_threads
         prompt_ready];
    try match goal with
        | |- context [(length ?l =? 0)%nat] => destruct l eqn:?; cbn
        end;
    eexists _, _; (split; [reflexivity|]); cbn [level];
    (split; [tauto || (right; repeat split; congruence)|]);
    (split; [|congruence]);
    (split; [intros; try discriminate; subst; tauto || (right; tauto)
            | intros [?|(?&?&?&[?|?])]; subst; try done; try lia]).
Qed.

(** X7: a status report never hides the prompt and never touches its
    timers or background waits.  The only report that makes a held prompt
    ready is [DEVICE_READY] with the address [0.0.0.0] arriving while no
    waiter is registered.  Handling a report makes no [print] call
    (standard output is left as it was; what the report shows on the
    terminal is its log record), and the port and the stop event are left
    alone. *)
Theorem report_never_hides_prompt (ip_str : string) (status_code : Z)
    (status_str : string) (w : world) :
  let w' := handle_status ip_str status_code status_str w in
  timers (prompt w') = timers (prompt w)
  ∧ wait_threads (prompt w') = wait_threads (prompt w)
  ∧ (prompt_ready (prompt w) = true → prompt_ready (prompt w') = true)
  ∧ (prompt_ready (prompt w') ≠ prompt_ready (prompt w) →
       ip_str = "0.0.0.0" ∧ status_str = "DEVICE_READY"
       ∧ status_waiters (waiters w) = [])
  ∧ console w' = console w
  ∧ esp32_serial_port w' = esp32_serial_port w
  ∧ stop_event w' = stop_event w.
Proof.
  destruct (handle_status_effect ip_str status_code status_str w)
    as (entry & ready & -> & Hready & _).
  cbn. repeat split; try done.
  - intros Hw. destruct Hready as [->|[-> _]]; done.
  - destruct Hready as [->|(_ & -> & _)]; done.
  - destruct Hready as [->|(_ & _ & -> & _)]; done.
  - destruct Hready as [->|(_ & _ & _ & -> & _)]; done.
Qed.

Lemma report_never_hides_prompt_witness :
  prompt_ready (prompt initial_world) = true
  ∧ prompt_ready
      (prompt (handle_status "10.0.0.7" 5 "PORT_OPEN" initial_world)) = true.
Proof.
  split; [reflexivity|].
  destruct (report_never_hides_prompt "10.0.0.7" 5 "PORT_OPEN" initial_world)
    as (_ & _ & Hkept & _).
  apply Hkept. reflexivity.
Defined.


(** X8: every status report adds exactly one record to the log.  The
    record is a warning exactly for a Wi-Fi connect failure (code 11) and,
    on a report that carries a target address, for [SERVICE_NO_RESPONSE]
    and [TARGET_UNREACHABLE] (codes 10 and 15 excepted, which have their
    own message); it is never an error. *)
Theorem report_log_severity (ip_str : string) (status_code : Z)
    (status_str : string) (w : world) :
  ∃ entry,
    log (handle_status ip_str status_code status_str w) = log w ++ [entry]
    ∧ (level entry = WARNING
       ↔ status_code = 11
         ∨ status_code ≠ 10 ∧ status_code ≠ 15 ∧ ip_str ≠ "0.0.0.0"
           ∧ (status_str = "SERVICE_NO_RESPONSE"
              ∨ status_str = "TARGET_UNREACHABLE"))
    ∧ level entry ≠ ERROR.
Proof.
  destruct (handle_status_effect ip_str status_code status_str w)
    as (entry & ready & -> & _ & Hlevel & Herr).
  by exists entry.
Qed.

(** ** Holding the prompt until a status arrives *)

Section HeldCommands.

Variables (names : list string) (tmo : option Q) (fallback : Q).

Lemma held_world (w : world) :
  hold_prompt_until_status names tmo fallback w
  = World (snd (register_status_waiter names (waiters w)))
          (Gate false (timers (prompt w))
                (wait_threads (prompt w)
                 ++ [WaitThread (next_event (waiters w)) tmo fallback]))
          (stop_event w) (log w) (console w) (esp32_serial_port w)
          (wifi_config_file w) (shell_calls w) (os_name w) (ipconfig_found w).
Proof. done. Qed.

Lemma lookup_appended {A} (l : list A) (x : A) :
  (l ++ [x]) !! length l = Some x.
Proof. induction l as [|y l IH]; [done|]. exact IH. Qed.

Lemma older_waiters_kept (n : nat) (ws : list waiter) :
  Forall (fun x => (event x < n)%nat) ws →
  filter (fun x => event x ≠ n) ws = ws.
Proof.
  induction 1 as [|x ws Hx _ IH]; [done|].
  rewrite filter_cons_True by lia. by rewrite IH.
Qed.

Lemma fresh_event_unset (r : registry) :
  registry_wf r → next_event r ∉ set_calls r.
Proof.
  intros (_ & _ & Hsc) Hin. rewrite Forall_forall in Hsc.
  apply Hsc in Hin. lia.
Qed.

Lemma held_then_notified
    (name ip_str : string) (status_code : Z) (w : world) :
  registry_wf (waiters w) → name ∈ names →
  let w1 := hold_prompt_until_status names tmo fallback w in
  let w2 := handle_status ip_str status_code name w1 in
  let w3 := wait_and_release (length (wait_threads (prompt w))) w2 in
  prompt_ready (prompt w1) = false
  ∧ prompt w3 = Gate true (timers (prompt w)) (wait_threads (prompt w))
  ∧ status_waiters (waiters w3)
    = filter (fun x => name ∉ statuses x) (status_waiters (waiters w))
  ∧ set_count (waiters w3) (next_event (waiters w)) = 1%nat.
Proof.
  intros Hwf Hname w1 w2 w3. split; [done|].
  pose proof (registry_wf_register names _ Hwf) as Hwf1.
  set (r1 := snd (register_status_waiter names (waiters w))) in *.
  set (mine := Waiter (list_to_set names) (next_event (waiters w))).
  assert (mine ∈ status_waiters r1) as Hmine.
  { unfold r1. cbn. apply elem_of_app. right. apply list_elem_of_here. }
  assert (name ∈ statuses mine) as Hlisted
    by (cbn; by apply elem_of_list_to_set).
  assert (set_count (notify_status_waiters name r1) (event mine) = 1%nat)
    as Hcount.
  { rewrite notify_fires by done. unfold set_count, r1. cbn.
    by rewrite count_fresh by (by apply fresh_event_unset). }
  assert (event mine ∈ set_calls (notify_status_waiters name r1)) as Hset.
  { rewrite notify_set_calls. apply elem_of_app. right.
    apply list_elem_of_fmap. exists mine. split; [done|].
    by apply list_elem_of_filter. }
  destruct (handle_status_effect ip_str status_code name w1)
    as (entry & ready & E2 & _).
  unfold w3, w2. rewrite E2. unfold w1. rewrite held_world. fold r1.
  unfold wait_and_release.
  cbn [prompt wait_threads waiters timers prompt_ready].
  rewrite lookup_appended. cbn [awaited timeout fallback_delay].
  change (next_event (waiters w)) with (event mine).
  rewrite (bool_decide_eq_true_2 _ Hset). cbn [negb andb].
  cbn [set_waiters set_prompt prompt waiters wait_threads timers].
  rewrite delete_appended. split; [done|]. split; [|exact Hcount].
  cbn [unregister_status_waiter status_waiters]. rewrite notify_kept.
  unfold r1. cbn [register_status_waiter snd status_waiters].
  rewrite filter_app, filter_cons_False, filter_nil, app_nil_r
    by (intros Hn; apply Hn, Hlisted).
  apply older_waiters_kept. apply Forall_filter_keep.
  by destruct Hwf as (Hlt & _).
Qed.

(** X9: a command that holds the prompt until one of [names] arrives is
    completed by a report with such a name.  Holding clears the prompt;
    when the report has been handled and the background wait wakes up, the
    prompt is ready, with the timers and background waits it had before the
    command; the command's waiter has been fired exactly once and is gone,
    together with the older waiters that listed the name. *)
Theorem status_arrival_completes_command
    (name ip_str : string) (status_code : Z) (w : world) :
  registry_wf (waiters w) → name ∈ names →
  let w1 := hold_prompt_until_status names tmo fallback w in
  let w2 := handle_status ip_str status_code name w1 in
  let w3 := wait_and_release (length (wait_threads (prompt w))) w2 in
  prompt_ready (prompt w1) = false
  ∧ prompt w3 = Gate true (timers (prompt w)) (wait_threads (prompt w))
  ∧ status_waiters (waiters w3)
    = filter (fun x => name ∉ statuses x) (status_waiters (waiters w))
  ∧ set_count (waiters w3) (next_event (waiters w)) = 1%nat.
Proof. intros Hwf Hname. by apply held_then_notified. Qed.

(** X10: when no listed status arrives, the timeout still ends the wait
    (for a positive fallback delay, as every caller passes).
    The command's waiter is unregistered, so the registry is as it was
    before the command and a report that comes late no longer sets its
    event; the prompt stays held on a timer of the fallback delay and is
    ready as soon as that timer fires. *)
Theorem timeout_releases_after_fallback (limit : Q) (late : string)
    (w : world) :
  registry_wf (waiters w) → tmo = Some limit → (0 < fallback)%Q →
  let w1 := hold_prompt_until_status names tmo fallback w in
  let w2 := wait_and_release (length (wait_threads (prompt w))) w1 in
  status_waiters (waiters w2) = status_waiters (waiters w)
  ∧ prompt w2
    = Gate false (timers (prompt w) ++ [fallback]) (wait_threads (prompt w))
  ∧ prompt (timer_fires (length (timers (prompt w))) w2)
    = Gate true (timers (prompt w)) (wait_threads (prompt w))
  ∧ set_count (notify_status_waiters late (waiters w2))
              (next_event (waiters w)) = 0%nat.
Proof.
  intros Hwf Htmo Hfb w1 w2.
  pose proof (fresh_event_unset _ Hwf) as Hunset.
  assert (w2 = World (Registry (status_waiters (waiters w))
                               (S (next_event (waiters w)))
                               (set_calls (waiters w)))
                     (Gate false (timers (prompt w) ++ [fallback])
                           (wait_threads (prompt w)))
                     (stop_event w) (log w) (console w) (esp32_serial_port w)
                     (wifi_config_file w) (shell_calls w) (os_name w)
                     (ipconfig_found w)) as ->.
  { unfold w2, w1. rewrite held_world. unfold wait_and_release.
    cbn [prompt wait_threads waiters timers prompt_ready].
    rewrite lookup_appended. cbn [awaited timeout fallback_delay].
    cbn [register_status_waiter snd set_calls].
    rewrite (bool_decide_eq_false_2 _ Hunset).
    rewrite (bool_decide_eq_false_2 (tmo = None)) by (by rewrite Htmo).
    cbn [negb andb].
    assert (Qeq_bool fallback 0 = false) as ->.
    { apply not_true_iff_false. intros Heq%Qeq_bool_iff.
      rewrite Heq in Hfb. by apply Qlt_irrefl in Hfb. }
    assert (Qle_bool 0 fallback = true) as ->.
    { by apply Qle_bool_iff, Qlt_le_weak. }
    cbn [negb].
    unfold set_prompt, set_waiters, unregister_status_waiter.
    cbn [prompt waiters wait_threads timers prompt_ready status_waiters
         next_event set_calls stop_event log console esp32_serial_port
         wifi_config_file shell_calls os_name ipconfig_found].
    rewrite delete_appended, filter_app, filter_cons_False, filter_nil,
      app_nil_r by (cbn; tauto).
    rewrite older_waiters_kept by (by destruct Hwf as (Hlt & _)).
    done. }
  cbn [waiters prompt status_waiters]. split; [done|]. split; [done|]. split.
  - unfold timer_fires. cbn. by rewrite delete_appended.
  - unfold set_count. rewrite notify_set_calls.
    cbn [set_calls status_waiters]. apply count_fresh.
    intros [Hin|Hin]%elem_of_app; [done|].
    apply list_elem_of_fmap in Hin as (x & Heq & [_ Hx]%list_elem_of_filter).
    destruct Hwf as (Hlt & _). rewrite Forall_forall in Hlt.
    apply Hlt in Hx. lia.
Qed.

End HeldCommands.

Lemma status_arrival_completes_command_witness :
  let w := hold_prompt_until_status ["DEVICE_READY"] (Some 20%Q) 1 initial_world in
  let w1 := hold_prompt_until_status ["SCAN_CYCLE_END"] (Some 180%Q) 1 w in
  let w2 := handle_status "0.0.0.0" 6 "SCAN_CYCLE_END" w1 in
  prompt (wait_and_release 1 w2) = Gate true [] [WaitThread 0 (Some 20%Q) 1]
  ∧ (event <$> status_waiters (waiters (wait_and_release 1 w2))) = [0%nat].
Proof.
  intros w w1 w2.
  assert (registry_wf (waiters w)) as Hwf
    by apply registry_wf_register, registry_wf_empty.
  assert ("SCAN_CYCLE_END" ∈ ["SCAN_CYCLE_END"]) as Hin
    by apply list_elem_of_here.
  pose proof (status_arrival_completes_command
                ["SCAN_CYCLE_END"] (Some 180%Q) 1 "SCAN_CYCLE_END" "0.0.0.0" 6
                w Hwf Hin) as H.
  cbv zeta in H. destruct H as (_ & Hgate & Hws & _).
  split; [exact Hgate|]. fold w1 w2 in Hws. 
  change (length (wait_threads (prompt w))) with 1%nat in Hws.
  rewrite Hws. vm_compute. reflexivity.
Defined.

Lemma timeout_releases_after_fallback_witness :
  let w1 := hold_prompt_until_status ["SCAN_CYCLE_END"] (Some 60%Q) 0.8
                                     initial_world in
  prompt (wait_and_release 0 w1) = Gate false [0.8%Q] []
  ∧ prompt (timer_fires 0 (wait_and_release 0 w1)) = Gate true [] [].
Proof.
  intros w1.
  pose proof (timeout_releases_after_fallback
                ["SCAN_CYCLE_END"] (Some 60%Q) 0.8 60%Q "SCAN_CYCLE_END"
                initial_world registry_wf_empty eq_refl eq_refl) as H.
  cbv zeta in H. destruct H as (_ & Hgate & Hfired & _).
  split; [exact Hgate | exact Hfired].
Defined.

(** ** Command dispatcher: the gate and the transport *)

Lemma length_snoc_NL (c : string) :
  String.length (c +:+ NL) = S (String.length c).
Proof. induction c as [|a c IH]; [done|]. simpl. f_equal. exact IH. Qed.

Lemma substring_last_NL (c : string) :
  String.substring (String.length c) 1 (c +:+ NL) = NL.
Proof. induction c as [|a c IH]; [done|]. exact IH. Qed.

Lemma endswith_snoc_NL (c : string) : endswith (c +:+ NL) NL = true.
Proof.
  unfold endswith. rewrite length_snoc_NL. cbn [String.length NL Nat.leb].
  replace (S (String.length c) - 1)%nat with (String.length c) by lia.
  rewrite substring_last_NL. by rewrite bool_decide_eq_true_2.
Qed.

(** The three ways [send_serial_command] can end. *)
Lemma send_serial_command_cases (command : string) (w : world) :
  match send_serial_command command w with
  | Sent w' =>
    ∃ p line,
      esp32_serial_port w = Some p ∧ is_open p = true
      ∧ (line = command ∨ line = command +:+ NL)
      ∧ endswith line NL = true
      ∧ w' = set_serial_port
               (Some (SerialPort (port_name p) (is_open p) (write_error p)
                                 (written p ++ [line]))) w
  | NotConnected => is_serial_ready w = false
  | WriteFailed _ => is_serial_ready w = true
  end.
Proof.
  unfold send_serial_command, is_serial_ready.
  destruct (esp32_serial_port w) as [p|]; [|done].
  destruct (is_open p) eqn:Hopen; [|done].
  destruct (write_error p) eqn:Herr; [done|].
  exists p. destruct (endswith command NL) eqn:Hend.
  - exists command. split; [done|]. split; [done|]. split; [by left|].
    split; [done|]. by rewrite Hopen, Herr.
  - exists (command +:+ NL). split; [done|]. split; [done|].
    split; [by right|]. split; [apply endswith_snoc_NL|].
    by rewrite Hopen, Herr.
Qed.

Lemma quiet_refl (w : world) : quiet w w.
Proof. done. Qed.

Lemma quiet_trans (w1 w2 w3 : world) : quiet w1 w2 → quiet w2 w3 → quiet w1 w3.
Proof. intros [? ?] [? ?]. split; congruence. Qed.

Lemma foldl_quiet {A} (g : world → A → world) (l : list A) (w : world) :
  (∀ w x, quiet w (g w x)) → quiet w (foldl g w l).
Proof.
  intros Hg. revert w. induction l as [|x l IH]; intros w; [done|].
  cbn [foldl]. eapply quiet_trans; [apply (Hg w x) | apply IH].
Qed.

Lemma held_on_timer (delay : Q) (w w1 : world) :
  quiet w w1 →
  gate_step (prompt w) (prompt (hold_prompt delay w1))
  ∧ transport_step w (hold_prompt delay w1).
Proof.
  intros [Hp Hport]. cbn. rewrite Hp. split.
  - right. left. by eexists.
  - by left.
Qed.

Lemma local_error_effect' (text : string) (w : world) :
  command_effect w (Returned (local_error text w)).
Proof. apply (held_on_timer _ w (print (warn text) w)). done. Qed.

Lemma not_connected_effect (w w1 : world) :
  quiet w w1 → command_effect w (not_connected w1).
Proof. intros H. apply (held_on_timer _ w). by destruct H. Qed.

Lemma sent_world (command : string) (w w0 w1 : world) :
  quiet w w0 → send_serial_command command w0 = Sent w1 →
  prompt w1 = prompt w ∧ is_serial_ready w = true
  ∧ ∃ line, transport_writes w1 = transport_writes w ++ [line]
            ∧ endswith line NL = true.
Proof.
  intros [Hp Hport] Hsend.
  pose proof (send_serial_command_cases command w0) as H.
  rewrite Hsend in H. destruct H as (p & line & Hp0 & Hopen & _ & Hend & ->).
  unfold is_serial_ready, transport_writes. rewrite <- Hport, Hp0. cbn.
  split; [done|]. split; [done|]. by exists line.
Qed.

Lemma after_send_timer (command : string) (delay : Q) (w w0 w1 w2 : world) :
  quiet w w0 → send_serial_command command w0 = Sent w1 → quiet w1 w2 →
  command_effect w (Returned (hold_prompt delay w2)).
Proof.
  intros Hq Hsend [Hp2 Hport2].
  destruct (sent_world _ _ _ _ Hq Hsend) as (Hp & Hready & line & Hw & Hend).
  split.
  - cbn. rewrite Hp2, Hp. right. left. by eexists.
  - right. split; [done|]. split; [done|]. exists line. split; [|done].
    rewrite <- Hw. unfold transport_writes. cbn. by rewrite Hport2.
Qed.

Lemma after_send_wait (command : string) (names : list string)
    (tmo : option Q) (fallback : Q) (w w0 w1 w2 : world) :
  quiet w w0 → send_serial_command command w0 = Sent w1 → quiet w1 w2 →
  command_effect w
    (Returned (hold_prompt_until_status names tmo fallback w2)).
Proof.
  intros Hq Hsend [Hp2 Hport2].
  destruct (sent_world _ _ _ _ Hq Hsend) as (Hp & Hready & line & Hw & Hend).
  split.
  - cbn. rewrite Hp2, Hp. right. right. by eexists.
  - right. split; [done|]. split; [done|]. exists line. split; [|done].
    rewrite <- Hw. unfold transport_writes. cbn. by rewrite Hport2.
Qed.

(** Every branch of a handler that sends a command: the three outcomes of
    the send, each followed by what the handler does next. *)
Ltac handler_send w :=
  match goal with
  | |- context [send_serial_command ?c ?w0] =>
    let Hsend := fresh "Hsend" in
    destruct (send_serial_command c w0) as [w1| |exc] eqn:Hsend;
    [ first [ eapply (after_send_wait c _ _ _ w w0 w1);
              [split; reflexivity | exact Hsend | split; reflexivity]
            | eapply (after_send_timer c _ w w0 w1);
              [split; reflexivity | exact Hsend | split; reflexivity] ]
    | apply not_connected_effect; split; reflexivity
    | split; reflexivity ]
  end.

Lemma cmd_help_effect args w : command_effect w (cmd_help args w).
Proof. apply (held_on_timer _ w). by split. Qed.

Lemma cmd_exit_effect args w : command_effect w (cmd_exit args w).
Proof. split; by left. Qed.

Lemma cmd_clear_effect args w : command_effect w (cmd_clear args w).
Proof. apply (held_on_timer _ w). by split. Qed.

Lemma cmd_status_effect args w : command_effect w (cmd_status args w).
Proof. apply (held_on_timer _ w). by split. Qed.

Lemma cmd_networks_effect args w : command_effect w (cmd_networks args w).
Proof.
  unfold cmd_networks. destruct (wifi_config_file w) as [|entry saved].
  - apply local_error_effect'.
  - apply (held_on_timer _ w).
    eapply quiet_trans; [|apply foldl_quiet; by intros w' [index ssid]].
    by split.
Qed.

Lemma cmd_randomize_mac_effect args w :
  command_effect w (cmd_randomize_mac args w).
Proof. unfold cmd_randomize_mac. handler_send w. Qed.

Lemma cmd_reboot_effect args w : command_effect w (cmd_reboot args w).
Proof. unfold cmd_reboot. handler_send w. Qed.

Lemma cmd_ipconfig_effect args w : command_effect w (cmd_ipconfig args w).
Proof.
  unfold cmd_ipconfig. cbn [ipconfig_found print set_console].
  destruct (ipconfig_found w).
  - apply (held_on_timer _ w). by split.
  - apply (held_on_timer _ w). by split.
Qed.

Lemma cmd_scan_effect args w : command_effect w (cmd_scan args w).
Proof.
  unfold cmd_scan. destruct args as [|first others];
    [apply local_error_effect'|].
  destruct (one_of first "-all" "--all"); [handler_send w|].
  destruct others as [|target_ip others]; [apply local_error_effect'|].
  destruct (bool_decide (first = "-t")); [|apply local_error_effect'].
  destruct (IPv4Address_parse target_ip); [|apply local_error_effect'].
  handler_send w.
Qed.

Lemma resolve_join_cases ssid password index w :
  match resolve_join ssid password index w with
  | inl (_, _, w0) => quiet w w0
  | inr w' => ∃ text, w' = local_error text w
  end.
Proof.
  unfold resolve_join. destruct index as [index|].
  - destruct (wifi_config_file w) as [|entry saved]; [by eexists|].
    cbn [map]. destruct (_ && _); [by split | by eexists].
  - destruct ssid as [ssid|], password as [password|]; try by eexists.
    destruct (_ && _); [|by eexists].
    destruct (bool_decide _); by split.
Qed.

Lemma cmd_join_effect args w : command_effect w (cmd_join args w).
Proof.
  unfold cmd_join.
  destruct (parse_join_options args None None None)
    as [text|ssid password index]; [apply local_error_effect'|].
  pose proof (resolve_join_cases ssid password index w) as H.
  destruct (resolve_join ssid password index w) as [[[s p] w0]|w'].
  - destruct (send_serial_command _ w0) as [w1| |exc] eqn:Hsend.
    + by eapply (after_send_wait _ _ _ _ w w0 w1).
    + by apply not_connected_effect.
    + exact H.
  - destruct H as [text ->]. apply local_error_effect'.
Qed.

Lemma handler_effect (known : string) (run : handler) args w :
  command_map !! known = Some run → command_effect w (run args w).
Proof.
  intros Hrun. apply elem_of_list_to_map_2 in Hrun.
  match type of Hrun with
  | _ ∈ ?table =>
    assert (Forall (fun entry : string * handler =>
                      ∀ args w, command_effect w (snd entry args w)) table)
      as Hall
  end.
  { repeat (apply Forall_cons_2;
            [intros args' w'; cbn [snd];
             first [ apply (cmd_help_effect args' w') | apply (cmd_exit_effect args' w')
                   | apply (cmd_clear_effect args' w') | apply (cmd_status_effect args' w')
                   | apply (cmd_networks_effect args' w') | apply (cmd_join_effect args' w')
                   | apply (cmd_scan_effect args' w') | apply (cmd_randomize_mac_effect args' w')
                   | apply (cmd_reboot_effect args' w') | apply (cmd_ipconfig_effect args' w') ]|]).
    apply Forall_nil_2. }
  rewrite Forall_forall in Hall. apply (Hall _ Hrun).
Qed.

Lemma dispatch_effect (verb : string) (args : list string) (w : world) :
  command_effect w (Returned (dispatch (verb :: args) w)).
Proof.
  unfold dispatch.
  destruct (command_map !! lower verb) as [run|] eqn:Hrun;
    [|apply local_error_effect'].
  pose proof (handler_effect _ _ args w Hrun) as H.
  destruct (run args w) as [w'|exc w']; [exact H|].
  cbn [settle]. apply (held_on_timer _ w). by destruct H.
Qed.

Section ConsoleLines.

Variable shlex_split : string → string + list string.

(** X11: no command leaves the console hanging.  A line read at the
    prompt either changes nothing at all (a blank line), or ends with the
    gate in one of three shapes: set; cleared with one more release timer
    pending; or cleared with one more background wait pending.  Timers and
    waits that were already pending are never removed by a command. *)
Theorem every_command_arms_a_release (raw_input : string) (w : world) :
  let w' := handle_user_command shlex_split raw_input w in
  w' = w ∨ gate_step (prompt w) (prompt w').
Proof.
  unfold handle_user_command. destruct (forallb _ _); [by left|].
  destruct (shlex_split raw_input) as [exc|[|verb args]].
  - right. apply local_error_effect'.
  - by left.
  - right. apply dispatch_effect.
Qed.

(** X12: a command writes to the transport at most once.  A line read at
    the prompt either leaves the port exactly as it was, or the port was
    open and exactly one newline-terminated line was appended to what it
    has written, and then the prompt is left held.  In particular nothing
    is ever written while the device is not connected. *)
Theorem command_writes_at_most_one_line (raw_input : string) (w : world) :
  let w' := handle_user_command shlex_split raw_input w in
  transport_step w w'
  ∧ (is_serial_ready w = false → esp32_serial_port w' = esp32_serial_port w).
Proof.
  assert (transport_step w (handle_user_command shlex_split raw_input w)) as H.
  { unfold handle_user_command. destruct (forallb _ _); [by left|].
    destruct (shlex_split raw_input) as [exc|[|verb args]].
    - by left.
    - by left.
    - apply dispatch_effect. }
  split; [exact H|]. intros Hoff.
  destruct H as [H|(Hready & _)]; [done | congruence].
Qed.

End ConsoleLines.

Lemma command_writes_at_most_one_line_witness :
  is_serial_ready initial_world = false
  ∧ esp32_serial_port
      (handle_user_command (fun _ => inr ["reboot"]) "reboot" initial_world)
    = esp32_serial_port initial_world.
Proof.
  split; [reflexivity|].
  destruct (command_writes_at_most_one_line (fun _ => inr ["reboot"])
              "reboot" initial_world) as [_ Hoff].
  apply Hoff. reflexivity.
Defined.


(** ** Saved networks *)

Lemma dict_get_set_eq (d : list (string * string)) (key value : string) :
  dict_get (dict_set d key value) key = Some value.
Proof.
  induction d as [|[k v] d IH]; cbn.
  - by rewrite bool_decide_eq_true_2.
  - destruct (bool_decide_reflect (k = key)) as [->|Hne]; cbn.
    + by rewrite bool_decide_eq_true_2.
    + by rewrite bool_decide_eq_false_2.
Qed.

Lemma dict_get_set_ne (d : list (string * string)) (key value other : string) :
  other ≠ key →
  dict_get (dict_set d key value) other = dict_get d other.
Proof.
  intros Hne. induction d as [|[k v] d IH]; cbn.
  - by rewrite bool_decide_eq_false_2.
  - destruct (bool_decide_reflect (k = key)) as [->|Hk]; cbn.
    + by rewrite !bool_decide_eq_false_2.
    + by rewrite IH.
Qed.

Lemma dict_set_keeps_index (d : list (string * string)) (key value : string)
    (i : nat) (s : string) :
  (fst <$> d) !! i = Some s → (fst <$> dict_set d key value) !! i = Some s.
Proof.
  revert i. induction d as [|[k v] d IH]; intros i; [done|]. cbn.
  destruct (bool_decide_reflect (k = key)) as [->|Hk]; destruct i; cbn; auto.
Qed.

Lemma dict_get_lookup (d : list (string * string)) (i : nat)
    (key value : string) :
  NoDup (fst <$> d) → d !! i = Some (key, value) →
  dict_get d key = Some value.
Proof.
  revert i. induction d as [|[k v] d IH]; intros i; [done|].
  rewrite fmap_cons, NoDup_cons. intros [Hk Hnd]. destruct i as [|i]; cbn.
  - intros [= -> ->]. by rewrite bool_decide_eq_true_2.
  - intros Hi. rewrite bool_decide_eq_false_2; [by apply (IH i)|].
    intros ->. apply Hk. apply list_elem_of_fmap. exists (key, value).
    split; [done|]. by apply list_elem_of_lookup_2 in Hi.
Qed.

(** Where the credentials end up once [cmd_join] has settled on them: the
    send and what follows it leave the store alone. *)
Lemma join_send_keeps_store (command verb : string) (w0 : world) :
  wifi_config_file
    (settle verb
       match send_serial_command command w0 with
       | Sent w =>
         Returned (hold_prompt_until_status
                     ["WIFI_CONNECT_SUCCESS"; "WIFI_CONNECT_FAILURE"]
                     (Some 25%Q) 0.5 w)
       | NotConnected => not_connected w0
       | WriteFailed exc => Raised exc w0
       end)
  = wifi_config_file w0.
Proof.
  pose proof (send_serial_command_cases command w0) as H.
  destruct (send_serial_command command w0) as [w1| |exc]; [|done..].
  by destruct H as (p & line & _ & _ & _ & _ & ->).
Qed.

(** X13: [join -s <ssid> -p <password>] with non-empty credentials always
    leaves them saved, whether or not the device is connected: afterwards
    the store maps the ssid to the password, every other network keeps its
    password, and every network that had an index keeps it. *)
Theorem join_saves_credentials (ssid password : string) (w : world) :
  ssid ≠ "" → password ≠ "" →
  let w' := dispatch ["join"; "-s"; ssid; "-p"; password] w in
  dict_get (wifi_config_file w') ssid = Some password
  ∧ (∀ other, other ≠ ssid →
       dict_get (wifi_config_file w') other
       = dict_get (wifi_config_file w) other)
  ∧ (∀ i s, (fst <$> wifi_config_file w) !! i = Some s →
            (fst <$> wifi_config_file w') !! i = Some s).
Proof.
  intros Hs Hp w'.
  assert (wifi_config_file w'
          = if bool_decide (dict_get (wifi_config_file w) ssid = Some password)
            then wifi_config_file w
            else dict_set (wifi_config_file w) ssid password) as ->.
  { unfold w', dispatch. change (lower "join") with "join".
    rewrite command_map_join. unfold cmd_join.
    change (parse_join_options ["-s"; ssid; "-p"; password] None None None)
      with (JoinOptions (Some ssid) (Some password) None).
    cbn iota. unfold resolve_join.
    rewrite (bool_decide_eq_false_2 (ssid = "")) by done.
    rewrite (bool_decide_eq_false_2 (password = "")) by done.
    cbn [negb andb]. cbn iota. rewrite join_send_keeps_store.
    by destruct (bool_decide _). }
  destruct (bool_decide_reflect
              (dict_get (wifi_config_file w) ssid = Some password)).
  - done.
  - split; [apply dict_get_set_eq|]. split.
    + intros other Hne. by apply dict_get_set_ne.
    + intros i s. apply dict_set_keeps_index.
Qed.

Lemma join_saves_credentials_witness :
  let w' := dispatch ["join"; "-s"; "home"; "-p"; "secret"] initial_world in
  dict_get (wifi_config_file w') "home" = Some "secret"
  ∧ transport_writes w' = [].
Proof.
  intros w'. split; [|reflexivity].
  apply (join_saves_credentials "home" "secret" initial_world); done.
Defined.

Lemma map_fmap {A B} (f : A → B) (l : list A) : map f l = f <$> l.
Proof. induction l as [|x l IH]; [done|]. cbn. by rewrite IH. Qed.

(** X14: [join -i <index>] sends the credentials saved under that index.
    With a store whose names are distinct, an index that holds the pair
    (ssid, password), and an open port, the command writes the single line
    [join <ssid> <password>], leaves the store unchanged, and holds the
    prompt on a wait for [WIFI_CONNECT_SUCCESS] or [WIFI_CONNECT_FAILURE]
    with a 25 s timeout and a 0.5 s fallback. *)
Theorem join_by_index_sends_saved (token ssid password : string) (i : nat)
    (p : serial_port) (w : world) :
  py_int token = Some (Z.of_nat i) →
  NoDup (fst <$> wifi_config_file w) →
  wifi_config_file w !! i = Some (ssid, password) →
  esp32_serial_port w = Some p → is_open p = true → write_error p = None →
  let w' := dispatch ["join"; "-i"; token] w in
  transport_writes w'
  = written p ++ [wire_line ("join " +:+ ssid +:+ " " +:+ password)]
  ∧ wifi_config_file w' = wifi_config_file w
  ∧ prompt w'
    = Gate false (timers (prompt w))
           (wait_threads (prompt w)
            ++ [WaitThread (next_event (waiters w)) (Some 25%Q) 0.5])
  ∧ status_waiters (waiters w')
    = status_waiters (waiters w)
      ++ [Waiter (list_to_set ["WIFI_CONNECT_SUCCESS"; "WIFI_CONNECT_FAILURE"])
                 (next_event (waiters w))].
Proof.
  intros Hint Hnd Hi Hport Hopen Herr w'.
  unfold w', dispatch. change (lower "join") with "join".
  rewrite command_map_join. unfold settle, cmd_join.
  cbn [parse_join_options]. change (one_of "-i" "-i" "--index") with true.
  cbn iota. rewrite Hint. cbn iota. unfold resolve_join.
  rewrite map_fmap.
  remember (wifi_config_file w) as d eqn:Hd.
  pose proof (lookup_lt_Some _ _ _ Hi) as Hlt.
  destruct d as [|entry saved]; [done|].
  rewrite fmap_cons. cbn iota. rewrite <- fmap_cons.
  rewrite length_fmap.
  destruct (Z.leb_spec 0 (Z.of_nat i)); [|lia].
  destruct (Z.ltb_spec (Z.of_nat i) (Z.of_nat (length (entry :: saved))));
    [|lia].
  cbn [andb]. rewrite Nat2Z.id, nth_lookup, list_lookup_fmap, Hi.
  cbn [fmap option_fmap option_map default fst].
  rewrite (dict_get_lookup _ i ssid password) by done.
  cbn [default]. unfold send_serial_command.
  cbn [log_message set_log esp32_serial_port]. rewrite Hport, Hopen, Herr.
  fold (wire_line ("join " +:+ ssid +:+ " " +:+ password)).
  cbn. by rewrite <- Hd.
Qed.

Lemma join_by_index_sends_saved_witness :
  let p := SerialPort "COM3" true None [] in
  let w := set_serial_port (Some p)
             (set_wifi_config_file [("home", "secret"); ("lab", "pw2")]
                                   initial_world) in
  transport_writes (dispatch ["join"; "-i"; "1"] w)
  = ["join lab pw2" +:+ NL].
Proof.
  intros p w.
  assert (NoDup (fst <$> wifi_config_file w)) as Hnd
    by (apply (bool_decide_unpack _); vm_compute; exact I).
  destruct (join_by_index_sends_saved "1" "lab" "pw2" 1 p w
              eq_refl Hnd eq_refl eq_refl eq_refl eq_refl) as (Hw & _).
  rewrite Hw. reflexivity.
Defined.

(** ** Addresses: from display back to [scan -t] *)

Lemma octets_read_back (b : Z) :
  is_byte b → parse_octet (int_to_str b) = Some b ∧ dotless (int_to_str b) = true.
Proof.
  intros Hb.
  assert (Forall (fun b => octet_reads_back b = true) (seqZ 0 256)) as Hall
    by (apply (bool_decide_unpack _); vm_compute; exact I).
  rewrite Forall_forall in Hall. specialize (Hall b).
  rewrite elem_of_seqZ in Hall. unfold is_byte in Hb.
  specialize (Hall ltac:(lia)). unfold octet_reads_back in Hall.
  apply andb_true_iff in Hall as [Hparse Hdot].
  by apply bool_decide_eq_true in Hparse.
Qed.

Lemma split_on_dotless (s : string) :
  dotless s = true → split_on "."%char s = [s].
Proof.
  unfold dotless. induction s as [|c s IH]; [done|].
  cbn [String.list_ascii_of_string forallb split_on].
  intros [Hc Hs]%andb_true_iff. apply negb_true_iff in Hc.
  apply bool_decide_eq_false in Hc. rewrite bool_decide_eq_false_2 by done.
  by rewrite IH.
Qed.

Lemma split_on_dot (s t : string) :
  dotless s = true →
  split_on "."%char (s +:+ "." +:+ t) = s :: split_on "."%char t.
Proof.
  unfold dotless. induction s as [|c s IH]; [done|].
  cbn [String.list_ascii_of_string forallb].
  change (String c s +:+ "." +:+ t) with (String c (s +:+ "." +:+ t)).
  cbn [split_on].
  intros [Hc Hs]%andb_true_iff. apply negb_true_iff in Hc.
  apply bool_decide_eq_false in Hc. rewrite bool_decide_eq_false_2 by done.
  by rewrite IH.
Qed.

Lemma to_bytes_little_bytes (len : nat) (n : Z) :
  Forall is_byte (to_bytes_little len n).
Proof.
  revert n. induction len as [|len IH]; intros n; [constructor|].
  cbn. apply Forall_cons_2; [|apply IH].
  unfold is_byte. apply Z.mod_pos_bound. lia.
Qed.

Lemma length_to_bytes_little (len : nat) (n : Z) :
  length (to_bytes_little len n) = len.
Proof. revert n. induction len as [|len IH]; intros n; cbn; auto. Qed.

Lemma from_to_bytes_little (len : nat) (n : Z) :
  from_bytes_little (to_bytes_little len n) = n mod 256 ^ Z.of_nat len.
Proof.
  revert n. induction len as [|len IH]; intros n.
  - cbn. by rewrite Z.mod_1_r.
  - cbn [to_bytes_little from_bytes_little]. rewrite IH.
    rewrite Nat2Z.inj_succ, Z.pow_succ_r by lia.
    rewrite Z.rem_mul_r; [done | lia |]. apply Z.pow_pos_nonneg; lia.
Qed.

(** The dotted quad of [n] reads back as [n] reduced to 32 bits, and that
    number is displayed the same way. *)
Lemma IPv4Address_round_trip (n : Z) :
  IPv4Address_parse (IPv4Address_str n) = Some (n mod 2 ^ 32)
  ∧ IPv4Address_str (n mod 2 ^ 32) = IPv4Address_str n.
Proof.
  pose proof (to_bytes_little_bytes 4 n) as Hbytes.
  pose proof (from_to_bytes_little 4 n) as Hfrom.
  pose proof (to_bytes_from_bytes_little _ Hbytes) as Hto.
  rewrite length_to_bytes_little, Hfrom in Hto.
  change (256 ^ Z.of_nat 4) with (2 ^ 32) in *.
  split.
  - unfold IPv4Address_str, int_to_bytes. rewrite <- Hfrom.
    destruct (to_bytes_little 4 n) as [|b0 [|b1 [|b2 [|b3 [|]]]]] eqn:Hb;
      try (apply (f_equal length) in Hb;
           rewrite length_to_bytes_little in Hb; discriminate).
    apply Forall_cons_1 in Hbytes as [H0 Hbytes].
    apply Forall_cons_1 in Hbytes as [H1 Hbytes].
    apply Forall_cons_1 in Hbytes as [H2 Hbytes].
    apply Forall_cons_1 in Hbytes as [H3 _].
    destruct (octets_read_back _ H0) as [P0 D0].
    destruct (octets_read_back _ H1) as [P1 D1].
    destruct (octets_read_back _ H2) as [P2 D2].
    destruct (octets_read_back _ H3) as [P3 D3].
    cbn [rev app map str_join]. unfold IPv4Address_parse.
    rewrite !split_on_dot, split_on_dotless by done.
    cbn [length]. rewrite bool_decide_eq_true_2 by done.
    cbn [mapM]. rewrite P3, P2, P1, P0. reflexivity.
  - unfold IPv4Address_str, int_to_bytes. by rewrite Hto.
Qed.

(** X15: an address shown for a report can be given back to [scan -t].
    The dotted quad of any decoded report parses as an IPv4 address, to the
    number that is displayed as that same dotted quad; so on an open port
    [scan -t <that address>] is not rejected: it writes the one line
    [scan -t <address>]. *)
Theorem reported_address_is_scannable (host : byteorder) (packet : list Z)
    (ip_str status_str : string) (status_code : Z) (p : serial_port)
    (w : world) :
  decode_report host packet = StatusEvent ip_str status_code status_str →
  esp32_serial_port w = Some p → is_open p = true → write_error p = None →
  (∃ n, 0 ≤ n < 2 ^ 32 ∧ IPv4Address_parse ip_str = Some n
        ∧ IPv4Address_str n = ip_str)
  ∧ transport_writes (dispatch ["scan"; "-t"; ip_str] w)
    = written p ++ [wire_line ("scan -t " +:+ ip_str)].
Proof.
  unfold decode_report. destruct (struct_unpack_IB packet) as [n code].
  intros [= <- _ _] Hport Hopen Herr.
  destruct (IPv4Address_round_trip (socket_htonl host n)) as [Hparse Hshow].
  split.
  - eexists. split; [|split; [exact Hparse | exact Hshow]].
    apply Z.mod_pos_bound. lia.
  - unfold dispatch. change (lower "scan") with "scan".
    rewrite command_map_scan. unfold settle, cmd_scan.
    change (one_of "-t" "-all" "--all") with false. cbn iota.
    rewrite bool_decide_eq_true_2 by done. rewrite Hparse.
    unfold send_serial_command. rewrite Hport, Hopen, Herr.
    by fold (wire_line ("scan -t " +:+ IPv4Address_str (socket_htonl host n))).
Qed.

Lemma reported_address_is_scannable_witness :
  let p := SerialPort "COM3" true None [] in
  let w := set_serial_port (Some p) initial_world in
  transport_writes (dispatch ["scan"; "-t"; "192.168.1.42"] w)
  = ["scan -t 192.168.1.42" +:+ NL].
Proof.
  intros p w.
  destruct (reported_address_is_scannable little [192; 168; 1; 42; 10]
              "192.168.1.42" "WIFI_CONNECT_SUCCESS" 10 p w
              eq_refl eq_refl eq_refl eq_refl) as [_ Hw].
  rewrite Hw. reflexivity.
Defined.

(** ** The reader thread is passive *)

Lemma handle_event_passive (ev : decoder_event) (w : world) :
  let w' := handle_event ev w in
  console w' = console w ∧ esp32_serial_port w' = esp32_serial_port w
  ∧ stop_event w' = stop_event w
  ∧ wifi_config_file w' = wifi_config_file w
  ∧ timers (prompt w') = timers (prompt w)
  ∧ wait_threads (prompt w') = wait_threads (prompt w)
  ∧ (prompt_ready (prompt w) = true → prompt_ready (prompt w') = true)
  ∧ length (log w') = S (length (log w)).
Proof.
  destruct ev as [ip_str status_code status_str|msg]; cbn [handle_event].
  - destruct (handle_status_effect ip_str status_code status_str w)
      as (entry & ready & -> & Hready & _).
    cbn. rewrite length_app. cbn. repeat split; try done; [|lia].
    intros Hw. destruct Hready as [->|[-> _]]; done.
  - cbn. rewrite length_app. cbn. repeat split; try done. lia.
Qed.

(** X16: the reader thread only listens.  One read, whatever bytes it
    brings, never writes to the port, never calls [print] (standard output
    is left as it was), never stops the controller, never touches the saved
    networks, never adds or removes a timer or a background wait and never
    hides a prompt that is ready.  All it shows is through the logger: it
    hands exactly one record per decoded unit to it.  The buffer it leaves
    is the decoder's residue. *)
Theorem reader_only_listens (host : byteorder) (chunk buffer : list Z)
    (w : world) :
  let st' := serial_reader_step host chunk (buffer, w) in
  fst st' = residue (feed host buffer chunk)
  ∧ console (snd st') = console w
  ∧ esp32_serial_port (snd st') = esp32_serial_port w
  ∧ stop_event (snd st') = stop_event w
  ∧ wifi_config_file (snd st') = wifi_config_file w
  ∧ timers (prompt (snd st')) = timers (prompt w)
  ∧ wait_threads (prompt (snd st')) = wait_threads (prompt w)
  ∧ (prompt_ready (prompt w) = true → prompt_ready (prompt (snd st')) = true)
  ∧ length (log (snd st'))
    = (length (log w) + length (events (feed host buffer chunk)))%nat.
Proof.
  unfold serial_reader_step. cbn [fst snd].
  assert (faulted (feed host buffer chunk) = false) as ->.
  { destruct chunk; [done|]. apply drain_never_faults. }
  split; [done|]. generalize (events (feed host buffer chunk)) as evs.
  intros evs. revert w. induction evs as [|ev evs IH]; intros w.
  - cbn. repeat split; done || lia.
  - cbn [foldl length].
    destruct (handle_event_passive ev w)
      as (H1 & H2 & H3 & H4 & H5 & H6 & H7 & H8).
    destruct (IH (handle_event ev w))
      as (I1 & I2 & I3 & I4 & I5 & I6 & I7 & I8).
    repeat split; try congruence; [auto | lia].
Qed.

Lemma reader_only_listens_witness :
  prompt_ready (prompt initial_world) = true
  ∧ prompt_ready
      (prompt (snd (serial_reader_step little [0xAB; 7; 0; 0; 10; 5]
                      ([], initial_world)))) = true.
Proof.
  split; [reflexivity|].
  destruct (reader_only_listens little [0xAB; 7; 0; 0; 10; 5] []
              initial_world)
    as (_ & _ & _ & _ & _ & _ & _ & Hkept & _).
  apply Hkept. reflexivity.
Defined.


(** ** Port discovery *)

Lemma append_cons (a : ascii) (s t : string) :
  String a s +:+ t = String a (s +:+ t).
Proof. reflexivity. Qed.

Lemma prefix_spec (needle s : string) :
  String.prefix needle s = true ↔ ∃ suffix, s = needle +:+ suffix.
Proof.
  revert s. induction needle as [|a needle IH]; intros s.
  - destruct s; (split; [intros _; by eexists | done]).
  - destruct s as [|b s]; cbn [String.prefix].
    + split; [done | by intros [suffix [=]]].
    + destruct (ascii_dec a b) as [->|Hne].
      * rewrite IH. split; intros [suffix Hs]; exists suffix.
        -- by rewrite append_cons, Hs.
        -- rewrite append_cons in Hs. by injection Hs.
      * split; [done|]. intros [suffix Hs]. rewrite append_cons in Hs.
        congruence.
Qed.

Lemma str_contains_spec (needle s : string) :
  str_contains needle s = true
  ↔ ∃ before after, s = before +:+ needle +:+ after.
Proof.
  induction s as [|c s IH].
  - cbn [str_contains]. rewrite orb_false_r, prefix_spec. split.
    + intros [after Hs]. by exists "", after.
    + intros (before & after & Hs). destruct before; [by exists after|].
      discriminate Hs.
  - cbn [str_contains]. rewrite orb_true_iff, prefix_spec, IH. split.
    + intros [[after Hs]|(before & after & Hs)].
      * by exists "", after.
      * exists (String c before), after. by rewrite append_cons, Hs.
    + intros (before & after & Hs). destruct before as [|b before].
      * left. by exists after.
      * right. rewrite append_cons in Hs. injection Hs as _ Hs.
        by exists before, after.
Qed.

(** X17: port discovery picks the first USB-serial adapter.  A port counts
    as an adapter exactly when its description has [CP210x], [CH340] or
    [USB-SERIAL] somewhere in it.  The search returns the device of the
    first such port in the order the system lists them and logs it once; if
    there is none it returns nothing and logs nothing. *)
Theorem find_esp32_port_first_adapter (ports : list port_info) (w : world) :
  (∀ port, is_adapter port = true
           ↔ ∃ mark before after,
               mark ∈ ADAPTER_MARKS
               ∧ description port = before +:+ mark +:+ after)
  ∧ match find_esp32_port ports w with
    | (Some found, w') =>
      ∃ skipped port later,
        ports = skipped ++ port :: later
        ∧ Forall (fun q => is_adapter q = false) skipped
        ∧ is_adapter port = true ∧ found = device port
        ∧ w' = log_message (str ("ESP32 found on " +:+ found)) INFO None w
    | (None, w') =>
      w' = w ∧ Forall (fun q => is_adapter q = false) ports
    end.
Proof.
  split.
  - intros port. unfold is_adapter, ADAPTER_MARKS.
    rewrite !orb_true_iff, !str_contains_spec. split.
    + intros [[(b & a & H)|(b & a & H)]|(b & a & H)];
        eexists _, b, a; (split; [|exact H]);
        rewrite !elem_of_cons; auto.
    + intros (mark & b & a & Hmark & H).
      rewrite !elem_of_cons, elem_of_nil in Hmark.
      destruct Hmark as [->|[->|[->|[]]]]; eauto.
  - induction ports as [|port ports IH]; [by split|].
    cbn [find_esp32_port]. destruct (is_adapter port) eqn:Hport.
    + exists [], port, ports. repeat split; [constructor | done].
    + destruct (find_esp32_port ports w) as [[found|] w'].
      * destruct IH as (skipped & hit & later & -> & Hskip & Hhit & -> & ->).
        exists (port :: skipped), hit, later.
        repeat split; try done. by apply Forall_cons_2.
      * destruct IH as [-> Hall]. split; [done|]. by apply Forall_cons_2.
Qed.

(** ** Transport faults *)

(** X18: a read that fails is not fatal.  On an open port it costs one
    warning record handed to the logger and the port handle, and leaves the
    prompt and the waiters alone and makes no [print] call (standard
    output is left as it was); the next pass, finding no port, empties
    the buffer and changes nothing else, so that after a reconnect
    decoding starts from an empty buffer whatever was left of the old
    session. *)
Theorem read_fault_is_absorbed (host : byteorder) (buffer : list Z)
    (w : world) (r : read_result) :
  stop_event w = false → is_serial_ready w = true →
  let st1 := serial_reader_iteration host ReadFails (buffer, w) in
  esp32_serial_port (snd st1) = None
  ∧ log (snd st1)
    = log w ++ [LogRecord WARNING (str "ESP32 disconnected.") None]
  ∧ prompt (snd st1) = prompt w ∧ waiters (snd st1) = waiters w
  ∧ console (snd st1) = console w
  ∧ serial_reader_iteration host r st1 = ([], snd st1)
  ∧ ∀ p chunk,
      is_open p = true →
      fst (serial_reader_iteration host (ReadBytes chunk)
             ([], set_serial_port (Some p) (snd st1)))
      = residue (feed host [] chunk).
Proof.
  intros Hstop Hready st1. unfold st1, serial_reader_iteration.
  cbn [snd fst]. rewrite Hstop, Hready. cbn [snd fst].
  repeat split; try done.
  - cbn. by rewrite Hstop.
  - intros p chunk Hopen. cbn. by rewrite Hstop, Hopen.
Qed.

Lemma read_fault_is_absorbed_witness :
  let w := set_serial_port (Some (SerialPort "COM3" true None []))
                           initial_world in
  let st1 := serial_reader_iteration little ReadFails ([0xAB; 1; 2], w) in
  esp32_serial_port (snd st1) = None
  ∧ serial_reader_iteration little (ReadBytes [3; 4; 5]) st1 = ([], snd st1).
Proof.
  intros w st1.
  destruct (read_fault_is_absorbed little [0xAB; 1; 2] w (ReadBytes [3; 4; 5])
              eq_refl eq_refl) as (H1 & _ & _ & _ & _ & H2 & _).
  split; [exact H1 | exact H2].
Defined.

(** ** Device commands, end to end *)

Lemma sent_on_open_port (command : string) (p : serial_port) (w0 : world) :
  esp32_serial_port w0 = Some p → is_open p = true → write_error p = None →
  send_serial_command command w0
  = Sent (set_serial_port
            (Some (SerialPort (port_name p) true None
                              (written p ++ [wire_line command]))) w0).
Proof.
  intros Hport Hopen Herr. unfold send_serial_command.
  by rewrite Hport, Hopen, Herr.
Qed.

(** On an open port each of these commands ends by holding the prompt for
    names that include the name of its status code. *)
Lemma dispatch_holds (tokens : list string) (status_code : Z)
    (p : serial_port) (w : world) :
  completes tokens status_code →
  esp32_serial_port w = Some p → is_open p = true → write_error p = None →
  ∃ names tmo fallback w0,
    dispatch tokens w = hold_prompt_until_status names tmo fallback w0
    ∧ prompt w0 = prompt w ∧ waiters w0 = waiters w
    ∧ status_name status_code ∈ names.
Proof.
  intros Hc Hport Hopen Herr.
  destruct Hc as [|target Hip| |ssid password Hs Hp|ssid password Hs Hp].
  - unfold dispatch. change (lower "scan") with "scan".
    rewrite command_map_scan. unfold settle, cmd_scan.
    change (one_of "-all" "-all" "--all") with true. cbn iota.
    rewrite (sent_on_open_port _ p) by done.
    eexists _, _, _, _. split; [reflexivity|]. repeat split.
    apply list_elem_of_here.
  - unfold dispatch. change (lower "scan") with "scan".
    rewrite command_map_scan. unfold settle, cmd_scan.
    change (one_of "-t" "-all" "--all") with false. cbn iota.
    rewrite bool_decide_eq_true_2 by done.
    destruct (IPv4Address_parse target); [|done].
    rewrite (sent_on_open_port _ p) by done.
    eexists _, _, _, _. split; [reflexivity|]. repeat split.
    apply list_elem_of_here.
  - unfold dispatch. change (lower "reboot") with "reboot".
    change (command_map !! "reboot") with (Some cmd_reboot).
    unfold settle, cmd_reboot. rewrite (sent_on_open_port _ p) by done.
    eexists _, _, _, _. split; [reflexivity|]. repeat split.
    apply list_elem_of_here.
  - unfold dispatch. change (lower "join") with "join".
    rewrite command_map_join. unfold settle, cmd_join.
    change (parse_join_options ["-s"; ssid; "-p"; password] None None None)
      with (JoinOptions (Some ssid) (Some password) None).
    cbn iota. unfold resolve_join.
    rewrite (bool_decide_eq_false_2 (ssid = "")) by done.
    rewrite (bool_decide_eq_false_2 (password = "")) by done.
    cbn [negb andb]. cbn iota.
    destruct (bool_decide _);
      rewrite (sent_on_open_port _ p) by done;
      (eexists _, _, _, _; split; [reflexivity|]; repeat split;
       apply list_elem_of_here).
  - unfold dispatch. change (lower "join") with "join".
    rewrite command_map_join. unfold settle, cmd_join.
    change (parse_join_options ["-s"; ssid; "-p"; password] None None None)
      with (JoinOptions (Some ssid) (Some password) None).
    cbn iota. unfold resolve_join.
    rewrite (bool_decide_eq_false_2 (ssid = "")) by done.
    rewrite (bool_decide_eq_false_2 (password = "")) by done.
    cbn [negb andb]. cbn iota.
    destruct (bool_decide _);
      rewrite (sent_on_open_port _ p) by done;
      (eexists _, _, _, _; split; [reflexivity|]; repeat split;
       right; apply list_elem_of_here).
Qed.

(** X19: the device commands come back.  For [scan -all], [scan -t] of a
    valid address, [reboot] and [join -s ... -p ...], typed at the prompt
    with the port open: the command leaves the prompt held; when the
    device answers with a status frame that carries the code the command
    waits for (6, 6, 16, 10 or 11), with any address bytes, and the reader
    has decoded that frame and the background wait has woken up, the prompt
    is ready again, with exactly the timers and background waits it had
    before the command, and the reader's buffer is empty. *)
Theorem device_status_completes_command
    (tokens : list string) (status_code : Z) (host : byteorder)
    (a b c d : Z) (p : serial_port) (w : world) :
  completes tokens status_code → registry_wf (waiters w) →
  esp32_serial_port w = Some p → is_open p = true → write_error p = None →
  let w1 := dispatch tokens w in
  let st2 := serial_reader_step host (frame [a; b; c; d; status_code])
                                ([], w1) in
  let w3 := wait_and_release (length (wait_threads (prompt w))) (snd st2) in
  prompt_ready (prompt w1) = false
  ∧ fst st2 = []
  ∧ prompt w3 = Gate true (timers (prompt w)) (wait_threads (prompt w)).
Proof.
  intros Hc Hwf Hport Hopen Herr w1 st2 w3.
  destruct (dispatch_holds tokens status_code p w Hc Hport Hopen Herr)
    as (names & tmo & fallback & w0 & Hw1 & Hp0 & Hr0 & Hname).
  assert (feed host [] (frame [a; b; c; d; status_code])
          = Drained [decode_report host [a; b; c; d; status_code]] []
                    false false) as Hfeed.
  { pose proof (run_loop_unit host (Report [a; b; c; d; status_code]) []
                  eq_refl) as Hunit.
    rewrite app_nil_r in Hunit. exact Hunit. }
  rewrite <- Hr0 in Hwf.
  pose proof (held_then_notified names tmo fallback
                (status_name status_code)
                (IPv4Address_str
                   (socket_htonl host (int_from_bytes little [a; b; c; d])))
                status_code w0 Hwf Hname) as H.
  cbv zeta in H. destruct H as (Hheld & Hgate & _).
  unfold w3, st2, serial_reader_step. cbn [fst snd]. rewrite Hfeed.
  cbn [events residue faulted foldl]. unfold w1. rewrite Hw1.
  rewrite <- Hp0. split; [exact Hheld|]. split; [done|]. exact Hgate.
Qed.

Lemma device_status_completes_command_witness :
  let w := set_serial_port (Some (SerialPort "COM3" true None []))
                           initial_world in
  let w1 := dispatch ["reboot"] w in
  let st2 := serial_reader_step little (frame [0; 0; 0; 0; 16]) ([], w1) in
  prompt_ready (prompt w1) = false
  ∧ prompt (wait_and_release 0 (snd st2)) = Gate true [] [].
Proof.
  intros w w1 st2.
  destruct (device_status_completes_command ["reboot"] 16 little 0 0 0 0
              (SerialPort "COM3" true None []) w
              reboot_ends registry_wf_empty eq_refl eq_refl eq_refl)
    as (H1 & _ & H3).
  split; [exact H1 | exact H3].
Defined.

(** ** Waiters are never leaked *)

Lemma still_refl (w : world) : still w w.
Proof. done. Qed.

Lemma still_trans (w1 w2 w3 : world) : still w1 w2 → still w2 w3 → still w1 w3.
Proof.
  intros [Hq ?] [Hq' ?]. split; [by eapply quiet_trans | congruence].
Qed.

Lemma foldl_still {A} (g : world → A → world) (l : list A) (w : world) :
  (∀ w x, still w (g w x)) → still w (foldl g w l).
Proof.
  intros Hg. revert w. induction l as [|x l IH]; intros w; [done|].
  cbn [foldl]. eapply still_trans; [apply (Hg w x) | apply IH].
Qed.

Lemma timer_only (delay : Q) (w w0 : world) :
  still w w0 → waits_step w (hold_prompt delay w0).
Proof. intros [[Hp _] Hr]. left. cbn. by rewrite Hp, Hr. Qed.

Lemma wait_after_send (command : string) (names : list string) (limit : Q)
    (fallback : Q) (w w0 w1 w2 : world) :
  still w w0 → send_serial_command command w0 = Sent w1 → still w1 w2 →
  waits_step w (hold_prompt_until_status names (Some limit) fallback w2).
Proof.
  intros [Hq Hr] Hsend [[Hp2 _] Hr2].
  destruct (sent_world _ _ _ _ Hq Hsend) as (Hp & Hready & _).
  pose proof (send_serial_command_cases command w0) as H.
  rewrite Hsend in H. destruct H as (p & line & _ & _ & _ & _ & ->).
  right. exists names, limit, fallback. split; [done|].
  cbn in Hr2, Hp2, Hp. cbn. by rewrite Hr2, Hp2, Hr, Hp.
Qed.

Lemma timer_after_send (command : string) (delay : Q) (w w0 w1 w2 : world) :
  still w w0 → send_serial_command command w0 = Sent w1 → still w1 w2 →
  waits_step w (hold_prompt delay w2).
Proof.
  intros [[Hp _] Hr] Hsend [[Hp2 _] Hr2].
  pose proof (send_serial_command_cases command w0) as H.
  rewrite Hsend in H. destruct H as (p & line & _ & _ & _ & _ & ->).
  left. cbn in Hr2, Hp2. cbn. by rewrite Hr2, Hp2, Hr, Hp.
Qed.

Lemma local_error_waits (text : string) (w : world) :
  waits_effect w (Returned (local_error text w)).
Proof. unfold waits_effect, local_error. by apply timer_only. Qed.

Lemma not_connected_waits (w w1 : world) :
  still w w1 → waits_effect w (not_connected w1).
Proof. intros Hs. unfold waits_effect, not_connected. by apply timer_only. Qed.

Ltac handler_waits w :=
  match goal with
  | |- context [send_serial_command ?c ?w0] =>
    let Hsend := fresh "Hsend" in
    destruct (send_serial_command c w0) as [w1| |exc] eqn:Hsend;
    [ first [ eapply (wait_after_send c _ _ _ w w0 w1);
              [done | exact Hsend | done]
            | eapply (timer_after_send c _ w w0 w1);
              [done | exact Hsend | done] ]
    | by apply not_connected_waits
    | done ]
  end.

Lemma cmd_help_waits args w : waits_effect w (cmd_help args w).
Proof. by apply (timer_only _ w). Qed.

Lemma cmd_exit_waits args w : waits_effect w (cmd_exit args w).
Proof. by left. Qed.

Lemma cmd_clear_waits args w : waits_effect w (cmd_clear args w).
Proof. by apply (timer_only _ w). Qed.

Lemma cmd_status_waits args w : waits_effect w (cmd_status args w).
Proof. by apply (timer_only _ w). Qed.

Lemma cmd_networks_waits args w : waits_effect w (cmd_networks args w).
Proof.
  unfold cmd_networks. destruct (wifi_config_file w) as [|entry saved].
  - apply local_error_waits.
  - apply (timer_only _ w).
    eapply still_trans; [|apply foldl_still; by intros w' [index ssid]].
    done.
Qed.

Lemma cmd_randomize_mac_waits args w :
  waits_effect w (cmd_randomize_mac args w).
Proof. unfold cmd_randomize_mac. handler_waits w. Qed.

Lemma cmd_reboot_waits args w : waits_effect w (cmd_reboot args w).
Proof. unfold cmd_reboot. handler_waits w. Qed.

Lemma cmd_ipconfig_waits args w : waits_effect w (cmd_ipconfig args w).
Proof.
  unfold cmd_ipconfig. cbn [ipconfig_found print set_console].
  destruct (ipconfig_found w); by apply (timer_only _ w).
Qed.

Lemma cmd_scan_waits args w : waits_effect w (cmd_scan args w).
Proof.
  unfold cmd_scan. destruct args as [|first others];
    [apply local_error_waits|].
  destruct (one_of first "-all" "--all"); [handler_waits w|].
  destruct others as [|target_ip others]; [apply local_error_waits|].
  destruct (bool_decide (first = "-t")); [|apply local_error_waits].
  destruct (IPv4Address_parse target_ip); [|apply local_error_waits].
  handler_waits w.
Qed.

Lemma resolve_join_still ssid password index w :
  match resolve_join ssid password index w with
  | inl (_, _, w0) => still w w0
  | inr w' => ∃ text, w' = local_error text w
  end.
Proof.
  unfold resolve_join. destruct index as [index|].
  - destruct (wifi_config_file w) as [|entry saved]; [by eexists|].
    cbn [map]. destruct (_ && _); [done | by eexists].
  - destruct ssid as [ssid|], password as [password|]; try by eexists.
    destruct (_ && _); [|by eexists].
    destruct (bool_decide _); done.
Qed.

Lemma cmd_join_waits args w : waits_effect w (cmd_join args w).
Proof.
  unfold cmd_join.
  destruct (parse_join_options args None None None)
    as [text|ssid password index]; [apply local_error_waits|].
  pose proof (resolve_join_still ssid password index w) as H.
  destruct (resolve_join ssid password index w) as [[[s p] w0]|w'].
  - destruct (send_serial_command _ w0) as [w1| |exc] eqn:Hsend.
    + by eapply (wait_after_send _ _ _ _ w w0 w1).
    + by apply not_connected_waits.
    + exact H.
  - destruct H as [text ->]. apply local_error_waits.
Qed.

Lemma handler_waits_effect (known : string) (run : handler) args w :
  command_map !! known = Some run → waits_effect w (run args w).
Proof.
  intros Hrun. apply elem_of_list_to_map_2 in Hrun.
  match type of Hrun with
  | _ ∈ ?table =>
    assert (Forall (fun entry : string * handler =>
                      ∀ args w, waits_effect w (snd entry args w)) table)
      as Hall
  end.
  { repeat (apply Forall_cons_2;
            [intros args' w'; cbn [snd];
             first [ apply (cmd_help_waits args' w') | apply (cmd_exit_waits args' w')
                   | apply (cmd_clear_waits args' w') | apply (cmd_status_waits args' w')
                   | apply (cmd_networks_waits args' w') | apply (cmd_join_waits args' w')
                   | apply (cmd_scan_waits args' w') | apply (cmd_randomize_mac_waits args' w')
                   | apply (cmd_reboot_waits args' w') | apply (cmd_ipconfig_waits args' w') ]|]).
    apply Forall_nil_2. }
  rewrite Forall_forall in Hall. apply (Hall _ Hrun).
Qed.

Lemma dispatch_waits (verb : string) (args : list string) (w : world) :
  waits_step w (dispatch (verb :: args) w).
Proof.
  unfold dispatch.
  destruct (command_map !! lower verb) as [run|] eqn:Hrun;
    [|apply local_error_waits].
  pose proof (handler_waits_effect _ _ args w Hrun) as H.
  destruct (run args w) as [w'|exc w']; [exact H|].
  cbn [settle]. apply (timer_only _ w). by destruct H as [[? ?] ?].
Qed.

Section ConsoleWaits.

Variable shlex_split : string → string + list string.

(** X20: a command never leaks a waiter.  A line read at the prompt
    either leaves the registry and the background waits as they were, or
    (only with the port open) registers exactly one waiter and starts
    exactly one background wait, on that waiter's event and with a
    timeout.  No command removes a waiter or a background wait, and none
    registers a waiter while the port is absent or closed. *)
Theorem command_waits_are_bounded (raw_input : string) (w : world) :
  waits_step w (handle_user_command shlex_split raw_input w).
Proof.
  unfold handle_user_command. destruct (forallb _ _); [by left|].
  destruct (shlex_split raw_input) as [exc|[|verb args]].
  - apply local_error_waits.
  - by left.
  - apply dispatch_waits.
Qed.

End ConsoleWaits.
